(** * CodeSync: the offline Python execution simulator

    A shallow embedding of [src/services/pythonExecutor.ts] (the expression
    evaluator [evaluateExpression] and the trace builder [getExecutionTrace])
    together with the part of the JavaScript runtime the two functions rely
    on, and the properties of the specification that were checked against it.

    Conventions of the embedding.
    - A JavaScript string is a [string]: a sequence of code units, each code
      unit below 256 (the Latin-1 range of UTF-16).
    - A JavaScript number is a binary64 value, [spec_float] with the
      operations of the IEEE 754 specification of the Standard Library at
      precision 53 and maximal exponent 1024.
    - A scope ([Record<string, any>]) is a finite map from names to values;
      a value is a number or a string, the only values the interpreter ever
      stores. Property reads see own properties only, so names that collide
      with the members every object inherits (constructor, toString, ...)
      are outside the model.
    - [evaluateExpression] receives the scope object by reference; it is
      written in a state-and-exception monad over the scope so that what it
      does to the object is part of its result.
    - [getExecutionTrace] may not return (a loop whose limit is Infinity);
      it takes a fuel argument and answers [None] when the fuel is spent.
      Its callers pass 0 or the line number of a step as [startLine], a
      natural number here. The promise it returns is left out: the response
      is the value the promise resolves to. *)

From Stdlib Require Import ZArith NArith Ascii String List Lia.
From Stdlib Require Import DecimalString Floats.SpecFloat.
From stdpp Require Import gmap strings list.

(** ** The JavaScript runtime used by the simulator *)

Module JS.

(** *** Numbers *)

Definition number : Type := spec_float.

Definition prec : Z := 53.
Definition emax : Z := 1024.

Definition add : number -> number -> number := SFadd prec emax.
Definition sub : number -> number -> number := SFsub prec emax.
Definition mul : number -> number -> number := SFmul prec emax.
Definition div : number -> number -> number := SFdiv prec emax.
Definition ltb : number -> number -> bool := SFltb.
Definition eqb : number -> number -> bool := SFeqb.

Definition isNaN (x : number) : bool :=
  match x with S754_nan => true | _ => false end.

Definition isFinite (x : number) : bool :=
  match x with S754_zero _ | S754_finite _ _ _ => true | _ => false end.

Definition zero : number := S754_zero false.
Definition infinity : number := S754_infinity false.

(** The binary64 value nearest to the rational [p / q] (ties to even), with
    sign [s]. *)
Definition ofRatio (s : bool) (p q : positive) : number :=
  let '(mz, ez, lz) := SFdiv_core_binary prec emax (Zpos p) 0 (Zpos q) 0 in
  binary_round_aux prec emax s mz ez lz.

Definition ofZ (z : Z) : number :=
  match z with
  | Z0 => zero
  | Zpos p => ofRatio false p 1
  | Zneg p => ofRatio true p 1
  end.


Definition one : number := ofZ 1.

(** The value [m * 10 ^ e] of a decimal literal with digits [m]. *)
Definition ofDecimal (s : bool) (m : N) (e : Z) : number :=
  match m with
  | N0 => S754_zero s
  | Npos p =>
      match e with
      | Zneg k => ofRatio s p (Pos.pow 10 k)
      | Z0 => ofRatio s p 1
      | Zpos k => ofRatio s (p * Pos.pow 10 k) 1
      end
  end.

(** *** Code units and strings *)

Definition code (c : ascii) : N := N_of_ascii c.

Definition inRange (lo hi : N) (c : ascii) : bool :=
  ((lo <=? code c) && (code c <=? hi))%N.

(** WhiteSpace and LineTerminator code units below 256: TAB, LF, VT, FF, CR,
    SP and NBSP. This is the class of [\s] and what [trim] removes. *)
Definition isWhiteSpace (c : ascii) : bool :=
  inRange 9 13 c || (code c =? 32)%N || (code c =? 160)%N.

(** LF and CR: the code units the pattern [.] refuses. *)
Definition isLineTerminator (c : ascii) : bool :=
  (code c =? 10)%N || (code c =? 13)%N.

Definition isDigit (c : ascii) : bool := inRange 48 57 c.

(** The class [\w]: letters, digits and the underscore. *)
Definition isWordChar (c : ascii) : bool :=
  inRange 97 122 c || inRange 65 90 c || isDigit c || (code c =? 95)%N.

Definition dquote : ascii := "034"%char.
Definition squote : ascii := "039"%char.
Definition newline : ascii := "010"%char.

Definition isEmpty (s : string) : bool :=
  match s with EmptyString => true | String _ _ => false end.

Fixpoint trimStart (s : string) : string :=
  match s with
  | EmptyString => EmptyString
  | String c s' => if isWhiteSpace c then trimStart s' else s
  end.

Fixpoint trimEnd (s : string) : string :=
  match s with
  | EmptyString => EmptyString
  | String c s' =>
      match trimEnd s' with
      | EmptyString => if isWhiteSpace c then EmptyString else String c EmptyString
      | t => String c t
      end
  end.

Definition trim (s : string) : string := trimEnd (trimStart s).

Definition startsWith (s : string) (c : ascii) : bool :=
  match s with
  | String d _ => Ascii.eqb d c
  | EmptyString => false
  end.

Fixpoint endsWith (s : string) (c : ascii) : bool :=
  match s with
  | EmptyString => false
  | String d EmptyString => Ascii.eqb d c
  | String _ s' => endsWith s' c
  end.

(** [s.substring(0, i)] and [s.substring(i)] for [i] within the string. *)
Definition substringTo (s : string) (i : nat) : string := String.substring 0 i s.
Definition substringFrom (s : string) (i : nat) : string :=
  String.substring i (String.length s - i) s.

(** [s.slice(1, -1)]. *)
Definition slice1m1 (s : string) : string :=
  String.substring 1 (String.length s - 2) s.

(** [s.split(sep)] for a separator of one code unit. *)
Fixpoint split (sep : ascii) (s : string) : list string :=
  match s with
  | EmptyString => [EmptyString]
  | String c s' =>
      if Ascii.eqb c sep then EmptyString :: split sep s'
      else match split sep s' with
           | h :: t => String c h :: t
           | [] => [String c EmptyString]
           end
  end.

(** [l.join(sep)]. *)
Fixpoint join (sep : string) (l : list string) : string :=
  match l with
  | [] => EmptyString
  | [x] => x
  | x :: r => x +:+ sep +:+ join sep r
  end.

(** The length of the match of [/^\s*/]. *)
Fixpoint leadingWhiteSpace (s : string) : nat :=
  match s with
  | String c s' => if isWhiteSpace c then S (leadingWhiteSpace s') else 0
  | EmptyString => 0
  end.

(** *** Regular expressions

    The patterns of the simulator are anchored at both ends and are
    sequences of single-character atoms, each taken once or under a greedy
    [*] or [+], some of them in a capturing group. [exec] is the backtracking
    matcher of the language for this fragment: a greedy quantifier takes as
    many characters as it can and gives them back one at a time while the
    rest of the pattern fails. *)

Inductive atom : Type :=
  | Lit (c : ascii)   (* the character itself *)
  | Word              (* \w *)
  | Space             (* \s *)
  | Dot.              (* .  *)

Inductive item : Type :=
  | One (a : atom)
  | Star (capture : bool) (a : atom)
  | Plus (capture : bool) (a : atom).

Definition pattern : Type := list item.

Definition atomMatches (a : atom) (c : ascii) : bool :=
  match a with
  | Lit d => Ascii.eqb c d
  | Word => isWordChar c
  | Space => isWhiteSpace c
  | Dot => negb (isLineTerminator c)
  end.

(** [greedy a taken s k]: the atom [a] repeated on [s], longest first; [taken]
    is what it has consumed so far (reversed) and [k] matches the rest of the
    pattern. *)
Fixpoint greedy {A : Type} (a : atom) (taken : string) (s : string)
    (k : string -> string -> option A) : option A :=
  match s with
  | String c s' =>
      if atomMatches a c then
        match greedy a (String c taken) s' k with
        | Some r => Some r
        | None => k taken s
        end
      else k taken s
  | EmptyString => k taken s
  end.

Fixpoint rev_append (taken : string) (acc : string) : string :=
  match taken with
  | EmptyString => acc
  | String c t => rev_append t (String c acc)
  end.

Definition taken_string (taken : string) : string := rev_append taken EmptyString.

Fixpoint exec (p : pattern) (s : string) : option (list string) :=
  match p with
  | [] => if isEmpty s then Some [] else None
  | One a :: p' =>
      match s with
      | String c s' => if atomMatches a c then exec p' s' else None
      | EmptyString => None
      end
  | Star capture a :: p' =>
      greedy a EmptyString s (fun taken rest =>
        match exec p' rest with
        | Some groups =>
            Some (if capture then taken_string taken :: groups else groups)
        | None => None
        end)
  | Plus capture a :: p' =>
      match s with
      | String c s' =>
          if atomMatches a c then
            greedy a (String c EmptyString) s' (fun taken rest =>
              match exec p' rest with
              | Some groups =>
                  Some (if capture then taken_string taken :: groups else groups)
              | None => None
              end)
          else None
      | EmptyString => None
      end
  end.

Fixpoint lits (s : string) : pattern :=
  match s with
  | EmptyString => []
  | String c s' => One (Lit c) :: lits s'
  end.

(** *** [Number(text)]: the numeric value of a string

    StringNumericLiteral: optional white space around a decimal literal
    (optional sign, then Infinity or digits with an optional fraction and an
    optional exponent) or an unsigned hexadecimal, octal or binary integer.
    The empty text is 0; anything else is NaN. *)

Fixpoint readDigits (s : string) (acc : N) (count : nat) : N * nat * string :=
  match s with
  | String c s' =>
      if isDigit c then readDigits s' (acc * 10 + (code c - 48))%N (S count)
      else (acc, count, s)
  | EmptyString => (acc, count, s)
  end.

Definition readSign (s : string) : bool * string :=
  match s with
  | String c r =>
      if Ascii.eqb c "-" then (true, r)
      else if Ascii.eqb c "+" then (false, r)
      else (false, s)
  | EmptyString => (false, s)
  end.

Definition readExponent (s : string) : option Z :=
  match s with
  | EmptyString => Some 0%Z
  | String c r =>
      if Ascii.eqb c "e" || Ascii.eqb c "E" then
        let '(neg, r1) := readSign r in
        let '(v, n, rest) := readDigits r1 0 0 in
        if (n =? 0) || negb (isEmpty rest) then None
        else Some (if neg then (- Z.of_N v)%Z else Z.of_N v)
      else None
  end.

Definition unsignedDecimal (neg : bool) (s : string) : option number :=
  if String.eqb s "Infinity" then Some (S754_infinity neg)
  else
    let '(ip, ni, r1) := readDigits s 0 0 in
    let '(m, nf, r2) :=
      match r1 with
      | String c r => if Ascii.eqb c "." then readDigits r ip 0 else (ip, 0, r1)
      | EmptyString => (ip, 0, r1)
      end in
    if ni + nf =? 0 then None
    else match readExponent r2 with
         | Some e => Some (ofDecimal neg m (e - Z.of_nat nf))
         | None => None
         end.

Definition digitOf (base : N) (c : ascii) : option N :=
  let d :=
    if isDigit c then Some (code c - 48)%N
    else if inRange 97 102 c then Some (code c - 87)%N
    else if inRange 65 70 c then Some (code c - 55)%N
    else None in
  match d with
  | Some v => if (v <? base)%N then Some v else None
  | None => None
  end.

Fixpoint readRadix (base : N) (s : string) (acc : N) : option N :=
  match s with
  | EmptyString => Some acc
  | String c s' =>
      match digitOf base c with
      | Some v => readRadix base s' (acc * base + v)%N
      | None => None
      end
  end.

Definition radixOf (c : ascii) : option N :=
  if Ascii.eqb c "x" || Ascii.eqb c "X" then Some 16%N
  else if Ascii.eqb c "o" || Ascii.eqb c "O" then Some 8%N
  else if Ascii.eqb c "b" || Ascii.eqb c "B" then Some 2%N
  else None.

Definition decimalLiteral (t : string) : number :=
  let '(neg, r) := readSign t in
  match unsignedDecimal neg r with
  | Some v => v
  | None => S754_nan
  end.

Definition Number (text : string) : number :=
  let t := trim text in
  match t with
  | EmptyString => zero
  | String c0 (String c1 r) =>
      match (if Ascii.eqb c0 "0" then radixOf c1 else None) with
      | Some base =>
          match r, readRadix base r 0 with
          | String _ _, Some v => ofZ (Z.of_N v)
          | _, _ => S754_nan
          end
      | None => decimalLiteral t
      end
  | _ => decimalLiteral t
  end.

(** *** [String(x)] for a number: the shortest decimal text that reads back
    as [x] (Number::toString with radix 10) *)

Definition natString (n : N) : string := NilZero.string_of_uint (N.to_uint n).

Fixpoint zeros (n : nat) : string :=
  match n with
  | O => EmptyString
  | S n' => String "0" (zeros n')
  end.

(** The least [t] with [q <= p * 10 ^ t], searched for [fuel] steps. *)
Fixpoint scaleUp (fuel : nat) (p q : N) (t : Z) : Z :=
  match fuel with
  | O => t
  | S f => if (q <=? p)%N then t else scaleUp f (p * 10)%N q (t + 1)%Z
  end.

(** [n] with [10 ^ (n - 1) <= p / q < 10 ^ n]. *)
Definition decimalExponent (p q : N) : Z :=
  if (q <=? p)%N then Z.of_nat (String.length (natString (p / q)))
  else (1 - scaleUp 400 p q 0)%Z.

(** The [k]-digit candidates next to [p / q]: the digits [s] and the
    exponent [n] of the text, the value being [s * 10 ^ (n - k)]. *)
Definition candidate (x : number) (p q : N) (n0 : Z) (k : nat) : option (N * Z) :=
  let x10 := (n0 - Z.of_nat k)%Z in
  let a := match x10 with Zneg d => (p * Npos (Pos.pow 10 d))%N | _ => p end in
  let b := match x10 with Zpos d => (q * Npos (Pos.pow 10 d))%N | _ => q end in
  let lo := (a / b)%N in
  let r := (a mod b)%N in
  let hi := if (lo + 1 =? 10 ^ N.of_nat k)%N
            then ((10 ^ N.of_nat (k - 1))%N, (n0 + 1)%Z) else ((lo + 1)%N, n0) in
  let reads '(s, n) := eqb (ofDecimal false s (n - Z.of_nat k)) x in
  match reads (lo, n0), reads hi with
  | true, true =>
      match (2 * r ?= b)%N with
      | Lt => Some (lo, n0)
      | Gt => Some hi
      | Eq => if N.even lo then Some (lo, n0) else Some hi
      end
  | true, false => Some (lo, n0)
  | false, true => Some hi
  | false, false => if 17 <=? k then Some (lo, n0) else None
  end.

Fixpoint shortest (fuel : nat) (x : number) (p q : N) (n0 : Z) (k : nat) : N * Z * nat :=
  match candidate x p q n0 k, fuel with
  | Some (s, n), _ => (s, n, k)
  | None, S f => shortest f x p q n0 (S k)
  | None, O => (0%N, n0, k)
  end.

Definition formatDigits (s : N) (n : Z) (k : nat) : string :=
  let d := natString s in
  if ((Z.of_nat k <=? n) && (n <=? 21))%Z then d +:+ zeros (Z.to_nat n - k)
  else if ((0 <? n) && (n <=? 21))%Z then
    substringTo d (Z.to_nat n) +:+ "." +:+ substringFrom d (Z.to_nat n)
  else if ((-6 <? n) && (n <=? 0))%Z then "0." +:+ zeros (Z.to_nat (- n)) +:+ d
  else
    let e := (n - 1)%Z in
    let etext := (if (e <? 0)%Z then "-" else "+") +:+ natString (Z.abs_N e) in
    if k =? 1 then d +:+ "e" +:+ etext
    else substringTo d 1 +:+ "." +:+ substringFrom d 1 +:+ "e" +:+ etext.

Definition numberToString (x : number) : string :=
  match x with
  | S754_nan => "NaN"
  | S754_zero _ => "0"
  | S754_infinity s => if s then "-Infinity" else "Infinity"
  | S754_finite sg m e =>
      let p := match e with Zpos d => Npos (m * Pos.pow 2 d) | _ => Npos m end in
      let q := match e with Zneg d => Npos (Pos.pow 2 d) | _ => 1%N end in
      let '(s, n, k) :=
        shortest 17 (S754_finite false m e) p q (decimalExponent p q) 1 in
      (if sg then "-" else EmptyString) +:+ formatDigits s n k
  end.

(** [JSON.stringify] of a string: the text between double quotes, with the
    quote, the backslash and the control characters escaped. *)
Definition hexDigit (n : N) : ascii :=
  ascii_of_N (if (n <? 10)%N then n + 48 else n + 87)%N.

Definition escapeChar (c : ascii) : string :=
  let n := code c in
  if (n =? 8)%N then "\b"
  else if (n =? 9)%N then "\t"
  else if (n =? 10)%N then "\n"
  else if (n =? 12)%N then "\f"
  else if (n =? 13)%N then "\r"
  else if (n =? 34)%N then String "\" (String dquote EmptyString)
  else if (n =? 92)%N then "\\"
  else if (n <? 32)%N then
    "\u00" +:+ String (hexDigit (n / 16)) (String (hexDigit (n mod 16)) EmptyString)
  else String c EmptyString.

Fixpoint escapeString (s : string) : string :=
  match s with
  | EmptyString => EmptyString
  | String c s' => escapeChar c +:+ escapeString s'
  end.

Definition quoteJSONString (s : string) : string :=
  String dquote (escapeString s +:+ String dquote EmptyString).

End JS.

(** ** Values, scopes and the data of [src/types.ts] *)

(** What a scope holds and an expression evaluates to. *)
Inductive Value : Type :=
  | VNum (n : JS.number)
  | VStr (s : string).

(** [Record<string, any>]. *)
Abbreviation Scope := (gmap string Value).

(** [typeof v === 'number']. *)
Definition isNumber (v : Value) : bool :=
  match v with VNum _ => true | VStr _ => false end.

(** [String(v)] and the text of [v] in a template literal. *)
Definition toString (v : Value) : string :=
  match v with
  | VNum n => JS.numberToString n
  | VStr s => s
  end.

(** [JSON.stringify(v)]. *)
Definition stringify (v : Value) : string :=
  match v with
  | VNum n => if JS.isFinite n then JS.numberToString n else "null"
  | VStr s => JS.quoteJSONString s
  end.

(** The truth value of [v] in a condition or on the left of [||]. *)
Definition truthy (v : Value) : bool :=
  match v with
  | VNum n => negb (JS.isNaN n || JS.eqb n JS.zero)
  | VStr s => negb (JS.isEmpty s)
  end.

(** [interface ExecutionStep]. The optional fields [isError] and
    [requiresInput] are only ever absent or true; absent is [false]. The
    field [description] is declared a string, but an input prompt that
    evaluates to a number is stored in it as it is. *)
Record ExecutionStep : Type := {
  lineNumber : nat;
  description : Value;
  variables : Scope;
  output : option string;
  isError : bool;
  requiresInput : bool;
  inputVariable : option string
}.

(** [interface ExecutorResponse]. *)
Record ExecutorResponse : Type := {
  trace : list ExecutionStep;
  error : option string
}.

(** ** The expression evaluator *)

(** How a call ends: with a value or with a thrown [Error] and its message. *)
Inductive Completion (A : Type) : Type :=
  | Normal (a : A)
  | Throw (message : string).
Arguments Normal {A} a.
Arguments Throw {A} message.

(** A computation on the scope object it was handed. *)
Definition Eval (A : Type) : Type := Scope -> Scope * Completion A.

Definition ret {A : Type} (a : A) : Eval A := fun scope => (scope, Normal a).

Definition throw {A : Type} (message : string) : Eval A :=
  fun scope => (scope, Throw message).

Definition bind {A B : Type} (m : Eval A) (f : A -> Eval B) : Eval B :=
  fun scope =>
    match m scope with
    | (scope', Normal a) => f a scope'
    | (scope', Throw message) => (scope', Throw message)
    end.

(** [scope[name]] for a name the scope has as an own property or that
    [Object.prototype] does not have ([inheritedName]); [None] is
    [undefined]. The values of a scope are numbers and strings: the members
    every object inherits ([constructor], [toString], ...) are functions and
    objects, which this development does not follow. *)
Definition readProperty (name : string) : Eval (option Value) :=
  fun scope => (scope, Normal (scope !! name)).

(** [scope[name] = value], the value being a number or a string. The name
    [__proto__], unless the scope has it as an own property, reaches the
    setter inherited from [Object.prototype], which ignores a value that is
    not an object: nothing is bound. *)
Definition setProperty (name : string) (value : Value) (scope : Scope) : Scope :=
  match scope !! name with
  | Some _ => <[name := value]> scope
  | None => if String.eqb name "__proto__" then scope else <[name := value]> scope
  end.

(** The message of the engine's [RangeError] when the call stack is
    exhausted (the text is V8's). *)
Definition stackOverflow : string := "Maximum call stack size exceeded".

Notation "x <- m ;; f" := (bind m (fun x => f))
  (at level 100, m at next level, right associativity).

Definition isAddOp (c : ascii) : bool := Ascii.eqb c "+" || Ascii.eqb c "-".
Definition isMulOp (c : ascii) : bool := Ascii.eqb c "*" || Ascii.eqb c "/".
Definition isQuote (c : ascii) : bool :=
  Ascii.eqb c JS.dquote || Ascii.eqb c JS.squote.

(** [for (let i = n - 1; i >= 0; i--)]: the scan for the last operator of a
    level outside quotes; [n] positions are left to visit, the next one is
    [n - 1]. *)
Fixpoint scan (isOp : ascii -> bool) (expr : string) (n : nat) (inString : bool)
    : option (nat * ascii) :=
  match n with
  | O => None
  | S i =>
      match String.get i expr with
      | Some char =>
          let inString := if isQuote char then negb inString else inString in
          if negb inString && isOp char then Some (i, char)
          else scan isOp expr i inString
      | None => None
      end
  end.

(** The pattern [/^input\(( .* )\)$/] (written here with blanks around the
    group's body). *)
Definition inputCallPattern : JS.pattern :=
  JS.lits "input(" ++ [JS.Star true JS.Dot; JS.One (JS.Lit ")")].

Definition charText (c : ascii) : string := String c EmptyString.

(** [evaluateExpression] on a call stack with room for [fuel] nested calls
    of it; the recursion is on strictly shorter texts. *)
Fixpoint evaluate (fuel : nat) (expr : string) : Eval Value :=
  match fuel with
  | O => throw stackOverflow
  | S fuel' =>
      let expr := JS.trim expr in
      let parseFactor : Eval Value :=
        let expr := JS.trim expr in
        if (JS.startsWith expr JS.dquote && JS.endsWith expr JS.dquote)
           || (JS.startsWith expr JS.squote && JS.endsWith expr JS.squote)
        then ret (VStr (JS.slice1m1 expr))
        else if negb (JS.isNaN (JS.Number expr)) then ret (VNum (JS.Number expr))
        else
          property <- readProperty expr ;;
          match property with
          | Some v => ret v
          | None =>
              match JS.exec inputCallPattern expr with
              | Some [group] =>
                  let promptExpr := JS.trim group in
                  if negb (JS.isEmpty promptExpr) then evaluate fuel' promptExpr
                  else ret (VStr EmptyString)
              | _ => throw ("NameError: name '" +:+ expr +:+ "' is not defined")
              end
          end in
      match scan isAddOp expr (String.length expr) false with
      | Some (i, char) =>
          left <- evaluate fuel' (JS.substringTo expr i) ;;
          right <- evaluate fuel' (JS.substringFrom expr (i + 1)) ;;
          match left, right with
          | VNum l, VNum r =>
              ret (VNum (if Ascii.eqb char "+" then JS.add l r else JS.sub l r))
          | _, _ =>
              throw ("TypeError: unsupported operand type(s) for " +:+ charText char)
          end
      | None =>
          match scan isMulOp expr (String.length expr) false with
          | Some (i, char) =>
              left <- evaluate fuel' (JS.substringTo expr i) ;;
              right <- evaluate fuel' (JS.substringFrom expr (i + 1)) ;;
              match left, right with
              | VNum l, VNum r =>
                  if Ascii.eqb char "/" then
                    if JS.eqb r JS.zero
                    then throw "ZeroDivisionError: division by zero"
                    else ret (VNum (JS.div l r))
                  else ret (VNum (JS.mul l r))
              | _, _ =>
                  throw ("TypeError: unsupported operand type(s) for " +:+ charText char)
              end
          | None => parseFactor
          end
      end
  end.

(** [evaluateExpression(expr, scope)] on a call stack deep enough for the
    text: the scope after the call and how the call ended. No call nests
    deeper than the text is long. *)
Definition evaluateExpression (expr : string) : Eval Value :=
  evaluate (S (String.length expr)) expr.

(** ** The trace builder *)

(** The patterns of the statement shapes, in the order they are tried:
    [/^(\w+)\s*=\s*input\(( .* )\)$/], [/^for\s+(\w+)\s+in\s+range\((\w+)\):$/],
    [/^(\w+)\s*=\s*( .* )$/] and [/^print\(( .* )\)$/] (the body [.*] of a group
    is written here with blanks around it). *)
Definition inputPattern : JS.pattern :=
  [JS.Plus true JS.Word; JS.Star false JS.Space; JS.One (JS.Lit "=");
   JS.Star false JS.Space]
  ++ JS.lits "input(" ++ [JS.Star true JS.Dot; JS.One (JS.Lit ")")].

Definition forLoopPattern : JS.pattern :=
  JS.lits "for" ++ [JS.Plus false JS.Space; JS.Plus true JS.Word;
                    JS.Plus false JS.Space]
  ++ JS.lits "in" ++ [JS.Plus false JS.Space]
  ++ JS.lits "range(" ++ [JS.Plus true JS.Word] ++ JS.lits "):".

Definition assignmentPattern : JS.pattern :=
  [JS.Plus true JS.Word; JS.Star false JS.Space; JS.One (JS.Lit "=");
   JS.Star false JS.Space; JS.Star true JS.Dot].

Definition printPattern : JS.pattern :=
  JS.lits "print(" ++ [JS.Star true JS.Dot; JS.One (JS.Lit ")")].

(** A step with the three fields every step has. *)
Definition plainStep (lineNumber : nat) (description : Value) (variables : Scope)
    : ExecutionStep :=
  {| lineNumber := lineNumber; description := description;
     variables := variables; output := None; isError := false;
     requiresInput := false; inputVariable := None |}.

Definition withLineNumber (n : nat) (s : ExecutionStep) : ExecutionStep :=
  {| lineNumber := n; description := description s; variables := variables s;
     output := output s; isError := isError s;
     requiresInput := requiresInput s; inputVariable := inputVariable s |}.

Definition withDescription (d : Value) (s : ExecutionStep) : ExecutionStep :=
  {| lineNumber := lineNumber s; description := d; variables := variables s;
     output := output s; isError := isError s;
     requiresInput := requiresInput s; inputVariable := inputVariable s |}.

Definition withVariables (v : Scope) (s : ExecutionStep) : ExecutionStep :=
  {| lineNumber := lineNumber s; description := description s; variables := v;
     output := output s; isError := isError s;
     requiresInput := requiresInput s; inputVariable := inputVariable s |}.

Definition withOutput (o : string) (s : ExecutionStep) : ExecutionStep :=
  {| lineNumber := lineNumber s; description := description s;
     variables := variables s; output := Some o; isError := isError s;
     requiresInput := requiresInput s; inputVariable := inputVariable s |}.

(** [{...step, description, requiresInput: true, inputVariable}]. *)
Definition asInputRequest (d : Value) (varName : string) (s : ExecutionStep)
    : ExecutionStep :=
  {| lineNumber := lineNumber s; description := d; variables := variables s;
     output := output s; isError := isError s;
     requiresInput := true; inputVariable := Some varName |}.

(** The step the [catch] clause pushes. *)
Definition errorStep (lineNumber : nat) (message : string) (variables : Scope)
    : ExecutionStep :=
  {| lineNumber := lineNumber; description := VStr message;
     variables := variables; output := None; isError := true;
     requiresInput := false; inputVariable := None |}.

(** [trace.push(step)]. *)
Definition push (tr : list ExecutionStep) (s : ExecutionStep) : list ExecutionStep :=
  tr ++ [s].

(** [trace[trace.length-1] = f(trace[trace.length-1])]. *)
Fixpoint updateLast (f : ExecutionStep -> ExecutionStep) (tr : list ExecutionStep)
    : list ExecutionStep :=
  match tr with
  | [] => []
  | [s] => [f s]
  | s :: tr' => s :: updateLast f tr'
  end.

(** [trace.pop()]: the step removed, if any, and what is left. *)
Fixpoint pop (tr : list ExecutionStep) : option ExecutionStep * list ExecutionStep :=
  match tr with
  | [] => (None, [])
  | [s] => (Some s, [])
  | s :: tr' => let '(last, rest) := pop tr' in (last, s :: rest)
  end.

(** How the [try] block of one line ends, with the trace and the scope at
    that point. The loops inside the block end the same way; they say
    [Continue 0] when they run to their end. *)
Inductive Outcome : Type :=
  | Continue (i : nat) (tr : list ExecutionStep) (scope : Scope)
      (* [continue] with the line index at [i] *)
  | Return (response : ExecutorResponse)
  | Thrown (message : string) (tr : list ExecutionStep) (scope : Scope).

(** The [while] loop that collects the body of a loop: the lines after the
    header that are indented deeper than it, blank lines skipped; [rest] is
    [lines] from index [j] on. The result is the body and the final [j]. *)
Fixpoint collectBody (baseIndent : nat) (rest : list string) (j : nat)
    (loopBody : list (string * nat)) : list (string * nat) * nat :=
  match rest with
  | [] => (loopBody, j)
  | nextLine :: rest' =>
      if JS.isEmpty (JS.trim nextLine) then collectBody baseIndent rest' (S j) loopBody
      else if baseIndent <? JS.leadingWhiteSpace nextLine
      then collectBody baseIndent rest' (S j) (loopBody ++ [(nextLine, j)])
      else (loopBody, j)
  end.

(** [loopExecutor.trace.forEach(...)]: every step of the sub-trace is pushed
    with its line number mapped through [loopBody], and its variables become
    the scope. Reading [.index] of a missing entry throws. *)
Fixpoint forEachStep (loopBody : list (string * nat)) (steps : list ExecutionStep)
    (tr : list ExecutionStep) (scope : Scope) : Outcome :=
  match steps with
  | [] => Continue 0 tr scope
  | step :: steps' =>
      match (match lineNumber step with
             | O => None
             | S n => loopBody !! n
             end) with
      | Some (_, index) =>
          forEachStep loopBody steps'
            (push tr (withLineNumber (index + 1) step)) (variables step)
      | None =>
          Thrown "TypeError: Cannot read properties of undefined (reading 'index')"
            tr scope
      end
  end.

Section TraceBuilder.

(** The recursive call [getExecutionTrace(code, scope)] of the loop. *)
Variable recurse : string -> Scope -> option ExecutorResponse.

(** [for (let k = 0; k < loopLimit; k++)], from the current [k] on. [None]:
    the fuel is spent. *)
Fixpoint iterate (fuel : nat) (k loopLimit : JS.number) (loopVar : string)
    (lineNumber : nat) (loopBody : list (string * nat))
    (tr : list ExecutionStep) (scope : Scope) : option Outcome :=
  if JS.ltb k loopLimit then
    match fuel with
    | O => None
    | S fuel' =>
        let scope := setProperty loopVar (VNum k) scope in
        let tr := push tr (plainStep lineNumber
          (VStr ("Loop iteration " +:+ JS.numberToString (JS.add k JS.one)
                 +:+ ". Set '" +:+ loopVar +:+ "' to "
                 +:+ JS.numberToString k +:+ "."))
          scope) in
        match recurse (JS.join (String JS.newline EmptyString) (map fst loopBody)) scope with
        | None => None
        | Some loopExecutor =>
            match forEachStep loopBody (trace loopExecutor) tr scope with
            | Continue _ tr scope =>
                match error loopExecutor with
                | Some message =>
                    if negb (JS.isEmpty message) then Some (Thrown message tr scope)
                    else iterate fuel' (JS.add k JS.one) loopLimit loopVar
                           lineNumber loopBody tr scope
                | None =>
                    iterate fuel' (JS.add k JS.one) loopLimit loopVar
                      lineNumber loopBody tr scope
                end
            | other => Some other
            end
        end
    end
  else Some (Continue 0 tr scope).

(** The [try] block for the line at index [i]. *)
Definition execLine (fuel : nat) (lines : list string) (i : nat) (line : string)
    (tr : list ExecutionStep) (scope : Scope) : option Outcome :=
  let lineNumber := i + 1 in
  let trimmedLine := JS.trim line in
  if JS.isEmpty trimmedLine || JS.startsWith trimmedLine "#" then
    Some (Continue i tr scope)
  else
    let tr := push tr (plainStep lineNumber
                (VStr ("Executing line: " +:+ trimmedLine)) scope) in
    match JS.exec inputPattern trimmedLine with
    | Some [varName; group] =>
        let promptExpr := JS.trim group in
        let '(scope, prompt) :=
          if negb (JS.isEmpty promptExpr) then evaluateExpression promptExpr scope
          else (scope, Normal (VStr EmptyString)) in
        match prompt with
        | Normal prompt =>
            let tr := updateLast (asInputRequest
              (if truthy prompt then prompt else VStr "Awaiting user input...")
              varName) tr in
            Some (Return {| trace := tr; error := None |})
        | Throw message => Some (Thrown message tr scope)
        end
    | _ =>
    match JS.exec forLoopPattern trimmedLine with
    | Some [loopVar; loopLimitExpr] =>
        match evaluateExpression loopLimitExpr scope with
        | (scope, Normal (VNum loopLimit)) =>
            let tr := updateLast (withDescription
              (VStr ("Starting a loop that will run "
                     +:+ JS.numberToString loopLimit +:+ " times."))) tr in
            let baseIndent := JS.leadingWhiteSpace line in
            let '(loopBody, j) := collectBody baseIndent (drop (i + 1) lines) (i + 1) [] in
            match iterate fuel JS.zero loopLimit loopVar lineNumber loopBody tr scope with
            | Some (Continue _ tr scope) => Some (Continue (j - 1) tr scope)
            | other => other
            end
        | (scope, Normal (VStr _)) =>
            Some (Thrown ("TypeError: '" +:+ loopLimitExpr
                          +:+ "' does not evaluate to an integer") tr scope)
        | (scope, Throw message) => Some (Thrown message tr scope)
        end
    | _ =>
    match JS.exec assignmentPattern trimmedLine with
    | Some [varName; valueExpr] =>
        if negb (JS.isEmpty valueExpr) then
          match evaluateExpression valueExpr scope with
          | (scope, Normal value) =>
              let scope := setProperty varName value scope in
              let tr := updateLast (withDescription
                (VStr ("Assign " +:+ stringify value +:+ " to '" +:+ varName +:+ "'"))) tr in
              let tr := updateLast (withVariables scope) tr in
              Some (Continue i tr scope)
          | (scope, Throw message) => Some (Thrown message tr scope)
          end
        else Some (Thrown "SyntaxError: invalid syntax" tr scope)
    | _ =>
    match JS.exec printPattern trimmedLine with
    | Some [group] =>
        match evaluateExpression group scope with
        | (scope, Normal value) =>
            let tr := updateLast (withDescription (VStr "Printing output")) tr in
            let tr := updateLast (withOutput (toString value)) tr in
            Some (Continue i tr scope)
        | (scope, Throw message) => Some (Thrown message tr scope)
        end
    | _ => Some (Thrown "SyntaxError: invalid or unsupported syntax" tr scope)
    end end end end.

(** The [catch] clause. *)
Definition catch (lineNumber : nat) (message : string) (tr : list ExecutionStep)
    (scope : Scope) : ExecutorResponse :=
  let '(lastStep, tr) := pop tr in
  {| trace := push tr (errorStep lineNumber message
                (match lastStep with
                 | Some s => variables s
                 | None => scope
                 end));
     error := Some message |}.

(** [for (let i = lineIndex; i < lines.length; i++)], from the current [i]. *)
Fixpoint run (fuel : nat) (lines : list string) (i : nat)
    (tr : list ExecutionStep) (scope : Scope) : option ExecutorResponse :=
  match lines !! i with
  | None => Some {| trace := tr; error := None |}
  | Some line =>
      match fuel with
      | O => None
      | S fuel' =>
          match execLine fuel' lines i line tr scope with
          | None => None
          | Some (Continue i' tr scope) => run fuel' lines (i' + 1) tr scope
          | Some (Return response) => Some response
          | Some (Thrown message tr scope) => Some (catch (i + 1) message tr scope)
          end
      end
  end.

End TraceBuilder.

(** [providedInput]: the text becomes a number when all of it reads as one. *)
Definition coerceInput (value : string) : Value :=
  if negb (JS.isNaN (JS.Number value)) && negb (JS.isEmpty (JS.trim value))
  then VNum (JS.Number value)
  else VStr value.

(** The scope the scan starts with: a copy of [initialScope], with the
    provided input assigned when there is one; [providedInput] is the pair
    of [variable] and [value]. *)
Definition provideInput (initialScope : Scope)
    (providedInput : option (string * string)) : Scope :=
  match providedInput with
  | Some (variable, value) => setProperty variable (coerceInput value) initialScope
  | None => initialScope
  end.

(** [getExecutionTrace(code, initialScope, startLine, providedInput)].
    [None]: the call has not returned within [fuel] nested calls and loop
    steps. *)
Fixpoint getExecutionTrace (fuel : nat) (code : string) (initialScope : Scope)
    (startLine : nat) (providedInput : option (string * string))
    : option ExecutorResponse :=
  match fuel with
  | O => None
  | S fuel' =>
      let scope := provideInput initialScope providedInput in
      let lines := JS.split JS.newline code in
      run (fun code scope => getExecutionTrace fuel' code scope 0 None)
        fuel' lines startLine [] scope
  end.

(** ** Vocabulary of the properties *)

Definition noError (s : ExecutionStep) : Prop := isError s = false.

(** The scope after the steps of [tr]: the snapshot of the last one, or
    [scope0] when there is none. *)
Definition scopeAfter (scope0 : Scope) (tr : list ExecutionStep) : Scope :=
  match last tr with
  | Some s => variables s
  | None => scope0
  end.

(** A line the scan does not skip: neither blank nor a comment. *)
Definition isStatement (line : string) : bool :=
  negb (JS.isEmpty (JS.trim line) || JS.startsWith (JS.trim line) "#").

(** The step carries the 1-based number of a statement line of [lines]. *)
Definition onLine (lines : list string) (s : ExecutionStep) : Prop :=
  exists n line,
    lineNumber s = S n /\ lines !! n = Some line /\ isStatement line = true.

(** The last step of the trace is an error step. *)
Definition endsInError (r : ExecutorResponse) : Prop :=
  exists e, last (trace r) = Some e /\ isError e = true.

(** What every response satisfies, [scope0] being the scope the scan
    started with: the steps are on statement lines; without an error no step
    is an error step; with an error the message is not empty and the trace is
    steps without an error followed by one error step that carries the
    message and the scope the steps before it left. *)
Definition respInv (lines : list string) (scope0 : Scope) (r : ExecutorResponse)
    : Prop :=
  Forall (onLine lines) (trace r) /\
  match error r with
  | None => Forall noError (trace r)
  | Some message =>
      message <> EmptyString /\
      exists init e,
        trace r = init ++ [e] /\ Forall noError init /\
        isError e = true /\ requiresInput e = false /\
        description e = VStr message /\
        variables e = scopeAfter scope0 init
  end.

Definition stInv (lines : list string) (scope0 : Scope)
    (tr : list ExecutionStep) (scope : Scope) : Prop :=
  Forall (onLine lines) tr /\ Forall noError tr /\ scopeAfter scope0 tr = scope.

Definition thInv (lines : list string) (scope0 : Scope) (message : string)
    (tr : list ExecutionStep) : Prop :=
  message <> EmptyString /\
  exists init p,
    tr = init ++ [p] /\ Forall (onLine lines) init /\ Forall noError init /\
    variables p = scopeAfter scope0 init.

Definition outInv (lines : list string) (scope0 : Scope) (o : Outcome) : Prop :=
  match o with
  | Continue _ tr scope => stInv lines scope0 tr scope
  | Return r => respInv lines scope0 r
  | Thrown message tr _ => thInv lines scope0 message tr
  end.

(** The entries of a loop body name lines of the source. *)
Definition bodyOK (lines : list string) (loopBody : list (string * nat)) : Prop :=
  Forall (fun e => lines !! (snd e) = Some (fst e)) loopBody.

(** What [forEachStep] pushes for a step of the sub-trace. *)
Definition remap (loopBody : list (string * nat)) (s : ExecutionStep)
    : ExecutionStep :=
  withLineNumber
    (match loopBody !! (lineNumber s - 1) with
     | Some (_, index) => index + 1
     | None => 0
     end) s.

Fixpoint contains (c : ascii) (s : string) : bool :=
  match s with
  | EmptyString => false
  | String d s' => Ascii.eqb d c || contains c s'
  end.

Fixpoint allChars (p : ascii -> bool) (s : string) : bool :=
  match s with
  | EmptyString => true
  | String c s' => p c && allChars p s'
  end.

(** A non-empty run of [\w] characters: what a group [(\w+)] captures. *)
Definition isWord (s : string) : bool :=
  negb (JS.isEmpty s) && allChars JS.isWordChar s.


(** A character that is neither an operator, nor a quote, nor white space. *)
Definition literalChar (c : ascii) : bool :=
  negb (isAddOp c || isMulOp c || isQuote c || JS.isWhiteSpace c).

(** ** The programs of the examples *)

Definition quoted (s : string) : string :=
  String JS.dquote (s +:+ String JS.dquote EmptyString).

Definition lineBreak : string := String JS.newline EmptyString.

(** [age = input("Age: ")] and [print(age)]. *)
Definition ageProgram : string :=
  "age = input(" +:+ quoted "Age: " +:+ ")" +:+ lineBreak +:+ "print(age)".

(** A counter incremented in a loop of three iterations. *)
Definition countProgram : string :=
  "count = 0" +:+ lineBreak +:+ "for i in range(3):" +:+ lineBreak
  +:+ "  count = count + 1".

(** An input statement in the body of a loop. *)
Definition inputLoopProgram : string :=
  "for i in range(2):" +:+ lineBreak +:+ "  x = input()".

(** A division by zero in the body of a loop. *)
Definition divisionLoopProgram : string :=
  "for i in range(2):" +:+ lineBreak +:+ "  x = 1 / 0".


(** A loop of zero iterations followed by a statement. *)
Definition emptyLoopLines : list string :=
  ["n = 0"; "for i in range(n):"; "  x = i"; "print(n)"].

(** Where a repetition of [a] must stop: at the end or at a character that
    [a] refuses. *)
Definition stops (a : JS.atom) (rest : string) : Prop :=
  match rest with
  | EmptyString => True
  | String c _ => JS.atomMatches a c = false
  end.

(** ** Vocabulary of the further properties *)

(** A character an operand may hold: no operator and no quote. *)
Definition operandChar (c : ascii) : bool :=
  negb (isAddOp c || isMulOp c || isQuote c).

(** What the two operator levels of the evaluator do with the values of the
    operands of [char]. *)
Definition combine (char : ascii) (left right : Value) : Completion Value :=
  match left, right with
  | VNum l, VNum r =>
      if isAddOp char then
        Normal (VNum (if Ascii.eqb char "+" then JS.add l r else JS.sub l r))
      else if Ascii.eqb char "/" then
        if JS.eqb r JS.zero then Throw "ZeroDivisionError: division by zero"
        else Normal (VNum (JS.div l r))
      else Normal (VNum (JS.mul l r))
  | _, _ => Throw ("TypeError: unsupported operand type(s) for " +:+ charText char)
  end.

(** The left operand is evaluated first; the right one only when the left
    one gave a value. *)
Definition thenCombine (char : ascii) (left right : Completion Value)
    : Completion Value :=
  match left with
  | Throw message => Throw message
  | Normal l =>
      match right with
      | Throw message => Throw message
      | Normal r => combine char l r
      end
  end.

(** The kinds of error the evaluator raises. *)
Definition evaluatorError (message : string) : bool :=
  String.prefix "NameError: " message || String.prefix "TypeError: " message
  || String.eqb message "ZeroDivisionError: division by zero".

(** No line of the source is the header of a loop. *)
Definition loopFree (lines : list string) : Prop :=
  Forall (fun line => JS.exec forLoopPattern (JS.trim line) = None) lines.

(** The 1-based numbers of the statement lines of [rest], the lines of the
    source from index [i] on. *)
Fixpoint statementNumbersFrom (rest : list string) (i : nat) : list nat :=
  match rest with
  | [] => []
  | line :: rest' =>
      if isStatement line then S i :: statementNumbersFrom rest' (S i)
      else statementNumbersFrom rest' (S i)
  end.

Definition statementNumbers (lines : list string) (startLine : nat) : list nat :=
  statementNumbersFrom (drop startLine lines) startLine.

(** The scope [b] is the scope [a] with at most one variable set. *)
Definition oneChange (a b : Scope) : Prop :=
  b = a \/ exists name value, b = <[name := value]> a.

(** From [scope0] on, every snapshot differs from the one before it by at
    most one variable. *)
Fixpoint chain (scope0 : Scope) (tr : list ExecutionStep) : Prop :=
  match tr with
  | [] => True
  | s :: tr' => oneChange scope0 (variables s) /\ chain (variables s) tr'
  end.

(** [hasChanged] of [src/components/StateVisualizer.tsx]: whether the row of
    [key] is highlighted; [prevVariables] is [None] when it is null. *)
Definition hasChanged (prevVariables : option Scope) (key : string) (value : Value)
    : bool :=
  match prevVariables with
  | None => true
  | Some prev =>
      match prev !! key with
      | None => true
      | Some old => negb (String.eqb (stringify old) (stringify value))
      end
  end.

(** The number of occurrences of [c] in [s]. *)
Fixpoint countChar (c : ascii) (s : string) : nat :=
  match s with
  | EmptyString => 0
  | String d s' => (if Ascii.eqb d c then 1 else 0) + countChar c s'
  end.

(** [code.split('\n').length || 1] of [src/components/CodeEditor.tsx]. *)
Definition lineCount (code : string) : nat :=
  let n := length (JS.split JS.newline code) in
  if n =? 0 then 1 else n.

(** The text the Tab key leaves in the editor: the selection from
    [selectionStart] to [selectionEnd] replaced by two spaces. *)
Definition insertTab (code : string) (selectionStart selectionEnd : nat) : string :=
  JS.substringTo code selectionStart +:+ "  " +:+ JS.substringFrom code selectionEnd.

(** [s.substring(i, j)] for [i <= j]. *)
Definition substringBetween (s : string) (i j : nat) : string :=
  String.substring i (j - i) s.

(** The trace an outcome carries. *)
Definition outTrace (o : Outcome) : list ExecutionStep :=
  match o with
  | Continue _ tr _ => tr
  | Return r => trace r
  | Thrown _ tr _ => tr
  end.

(** Two assignments. *)
Definition twoAssignments : string := "x = 1" +:+ lineBreak +:+ "y = x + 1".

(** How the [try] block of a line that is not a loop header ends: a line
    that is not a statement leaves the trace alone; a statement adds exactly
    one step, with the number of the line, and either goes on with the next
    line, or pauses for input, or throws. *)
Definition lineOutcome (i : nat) (line : string) (tr : list ExecutionStep)
    (scope : Scope) (o : Outcome) : Prop :=
  if isStatement line then
    exists s, lineNumber s = i + 1 /\
      match o with
      | Continue i' tr' _ => i' = i /\ tr' = tr ++ [s]
      | Return r => trace r = tr ++ [s] /\ requiresInput s = true /\ error r = None
      | Thrown _ tr' _ => tr' = tr ++ [s]
      end
  else o = Continue i tr scope.

(** A comment, an assignment, a blank line and a print. *)
Definition commentedProgram : string :=
  "# total" +:+ lineBreak +:+ "x = 1" +:+ lineBreak +:+ lineBreak +:+ "print(x)".

(** The trimmed line [print(e)]. *)
Definition printCall (e : string) : string := "print(" +:+ e +:+ ")".

(** The call [input(p)]. *)
Definition inputCall (p : string) : string := "input(" +:+ p +:+ ")".

(** The trimmed line [name = e], with the white space [ws1] and [ws2]
    around the sign. *)
Definition assignmentLine (name ws1 ws2 e : string) : string :=
  name +:+ ws1 +:+ "=" +:+ ws2 +:+ e.

(** A text without a line terminator: what [.*] can take whole. *)
Definition oneLine (s : string) : bool := allChars (JS.atomMatches JS.Dot) s.

(** The atom an item of a pattern repeats. *)
Definition itemAtom (it : JS.item) : JS.atom :=
  match it with
  | JS.One a => a
  | JS.Star _ a => a
  | JS.Plus _ a => a
  end.

(** The response of a call that the error [message] ends at the line of
    index [i], after the steps [tr]. *)
Definition failsAt (i : nat) (message : string) (tr : list ExecutionStep)
    (scope : Scope) : ExecutorResponse :=
  {| trace := push tr (errorStep (i + 1) message scope); error := Some message |}.

(** The step carries a line number above [start]. *)
Definition afterLine (start : nat) (s : ExecutionStep) : Prop :=
  start < lineNumber s.

Definition isText (v : Value) : bool :=
  match v with
  | VStr _ => true
  | VNum _ => false
  end.

(** The four kinds of step: a request for input names its variable and has
    neither an error nor an output; an error step has neither an output nor
    an input variable; any other step has no input variable, and may have an
    output. The description of a step that is no request for input is a
    text. *)
Definition stepShape (s : ExecutionStep) : bool :=
  match requiresInput s, isError s, output s, inputVariable s with
  | true, false, None, Some _ => true
  | false, true, None, None => isText (description s)
  | false, false, _, None => isText (description s)
  | _, _, _, _ => false
  end.

(** A line with nothing but white space. *)
Definition blankLine (line : string) : bool := JS.isEmpty (JS.trim line).

(** The lines of [rest] with their indices in the source, [rest] being the
    source from index [j] on. *)
Fixpoint numbered (rest : list string) (j : nat) : list (string * nat) :=
  match rest with
  | [] => []
  | line :: rest' => (line, j) :: numbered rest' (S j)
  end.

(** ** Vocabulary of the loop and of failures *)

(** The names every scope inherits from [Object.prototype]. *)
Definition inheritedName (name : string) : bool :=
  existsb (String.eqb name)
    ["constructor"; "hasOwnProperty"; "isPrototypeOf"; "propertyIsEnumerable";
     "toLocaleString"; "toString"; "valueOf"; "__proto__";
     "__defineGetter__"; "__defineSetter__"; "__lookupGetter__";
     "__lookupSetter__"].











(** ** Properties of the evaluator *)

Lemma bind_scope {A B : Type} (m : Eval A) (f : A -> Eval B) (scope : Scope) :
  fst (m scope) = scope ->
  (forall a, fst (f a scope) = scope) ->
  fst (bind m f scope) = scope.
Proof.
  intros Hm Hf. unfold bind.
  destruct (m scope) as [scope' [a | message]]; simpl in Hm; subst scope'.
  - apply Hf.
  - reflexivity.
Qed.

(** The evaluator hands back the scope object as it received it, at every
    depth of its recursion. *)
Lemma evaluate_scope (fuel : nat) :
  forall (expr : string) (scope : Scope), fst (evaluate fuel expr scope) = scope.
Proof.
  induction fuel as [| fuel IH]; intros expr scope; [reflexivity |].
  cbn [evaluate].
  destruct (scan isAddOp _ _ _) as [[i char] |].
  { apply bind_scope; [apply IH |]. intros l.
    apply bind_scope; [apply IH |]. intros r.
    destruct l, r; reflexivity. }
  destruct (scan isMulOp _ _ _) as [[i char] |].
  { apply bind_scope; [apply IH |]. intros l.
    apply bind_scope; [apply IH |]. intros r.
    destruct l, r; try reflexivity.
    destruct (Ascii.eqb char "/"); [| reflexivity].
    destruct (JS.eqb _ _); reflexivity. }
  destruct (_ || _); [reflexivity |].
  destruct (negb _); [reflexivity |].
  apply bind_scope; [reflexivity |]. intros [v |]; [reflexivity |].
  destruct (JS.exec _ _) as [[| group [| ? ?]] |]; try reflexivity.
  destruct (negb _); [apply IH | reflexivity].
Qed.

Lemma evaluateExpression_scope (expr : string) (scope : Scope) :
  exists c, evaluateExpression expr scope = (scope, c).
Proof.
  pose proof (evaluate_scope (S (String.length expr)) expr scope) as H.
  unfold evaluateExpression. destruct (evaluate _ _ _) as [s c]. simpl in H.
  subst s. eauto.
Qed.

Lemma bind_throw {A B : Type} (m : Eval A) (f : A -> Eval B) (scope : Scope)
    (P : string -> Prop) :
  (forall message, snd (m scope) = Throw message -> P message) ->
  (forall a scope' message, snd (f a scope') = Throw message -> P message) ->
  forall message, snd (bind m f scope) = Throw message -> P message.
Proof.
  intros Hm Hf message. unfold bind.
  destruct (m scope) as [scope' [a | message']]; simpl in *.
  - apply Hf.
  - intros [= <-]. apply Hm. reflexivity.
Qed.

(** Every message the evaluator throws is a non-empty text. *)
Lemma evaluate_message (fuel : nat) :
  forall (expr : string) (scope : Scope) (message : string),
    snd (evaluate fuel expr scope) = Throw message -> message <> EmptyString.
Proof.
  induction fuel as [| fuel IH]; intros expr scope; [intros ? [= <-]; discriminate |].
  cbn [evaluate].
  destruct (scan isAddOp _ _ _) as [[i char] |].
  { apply bind_throw; [apply IH |]. intros l scope1.
    apply bind_throw; [apply IH |]. intros r scope2 message.
    destruct l, r; intros [= <-]; discriminate. }
  destruct (scan isMulOp _ _ _) as [[i char] |].
  { apply bind_throw; [apply IH |]. intros l scope1.
    apply bind_throw; [apply IH |]. intros r scope2 message.
    destruct l, r; try (intros [= <-]; discriminate).
    destruct (Ascii.eqb char "/"); [| discriminate].
    destruct (JS.eqb _ _); [intros [= <-] |]; discriminate. }
  destruct (_ || _); [discriminate |].
  destruct (negb _); [discriminate |].
  apply bind_throw; [discriminate |]. intros [v |] scope1 message; [discriminate |].
  destruct (JS.exec _ _) as [[| group [| ? ?]] |]; try (intros [= <-]; discriminate).
  destruct (negb _); [apply IH | discriminate].
Qed.

Lemma evaluateExpression_message expr scope scope' message :
  evaluateExpression expr scope = (scope', Throw message) -> message <> EmptyString.
Proof.
  intros H. apply (evaluate_message (S (String.length expr)) expr scope).
  unfold evaluateExpression in H. rewrite H. reflexivity.
Qed.

(** ** The fuel of the evaluator is enough *)

Lemma trimStart_length s : String.length (JS.trimStart s) <= String.length s.
Proof.
  induction s as [| c s IH]; simpl; [lia |].
  destruct (JS.isWhiteSpace c); simpl; lia.
Qed.

Lemma trimEnd_length s : String.length (JS.trimEnd s) <= String.length s.
Proof.
  induction s as [| c s IH]; simpl; [lia |].
  destruct (JS.trimEnd s); [destruct (JS.isWhiteSpace c) |]; simpl in *; lia.
Qed.

Lemma trim_length s : String.length (JS.trim s) <= String.length s.
Proof.
  unfold JS.trim. pose proof (trimEnd_length (JS.trimStart s)).
  pose proof (trimStart_length s). lia.
Qed.

Lemma substring_length s : forall n m, String.length (String.substring n m s) <= m.
Proof.
  induction s as [| c s IH]; intros [| n] [| m]; simpl; try lia.
  - specialize (IH 0 m). lia.
  - apply IH.
  - apply IH.
Qed.

Lemma scan_bound isOp expr : forall n inString i c,
  scan isOp expr n inString = Some (i, c) -> i < n.
Proof.
  induction n as [| n IH]; intros inString i c; simpl; [discriminate |].
  destruct (String.get n expr) as [char |]; [| discriminate].
  destruct (negb _ && isOp char).
  - intros [= <- _]. lia.
  - intros H. apply IH in H. lia.
Qed.

Lemma rev_append_length taken : forall acc,
  String.length (JS.rev_append taken acc) = String.length taken + String.length acc.
Proof.
  induction taken as [| c taken IH]; intros acc; simpl; [reflexivity |].
  rewrite IH. simpl. lia.
Qed.

(** What [greedy] hands to the rest of the pattern is a split of what it was
    given. *)
Lemma greedy_split {A : Type} a (k : string -> string -> option A) :
  forall s taken r,
    JS.greedy a taken s k = Some r ->
    exists taken' rest,
      k taken' rest = Some r /\
      String.length taken' + String.length rest
      = String.length taken + String.length s.
Proof.
  induction s as [| c s IH]; intros taken r; simpl.
  - intros H. eauto.
  - destruct (JS.atomMatches a c); [| intros H; exists taken, (String c s); auto].
    destruct (JS.greedy a (String c taken) s k) as [r' |] eqn:Hg.
    + intros [= <-]. apply IH in Hg as (taken' & rest & Hk & Hlen).
      exists taken', rest. simpl in Hlen. split; [exact Hk | lia].
    + intros H. exists taken, (String c s). auto.
Qed.

(** A captured group is no longer than the text that was matched. *)
Lemma exec_groups p : forall s groups,
  JS.exec p s = Some groups ->
  Forall (fun g => String.length g <= String.length s) groups.
Proof.
  induction p as [| [a | capture a | capture a] p IH]; intros s groups; simpl.
  - destruct (JS.isEmpty s); [intros [= <-]; constructor | discriminate].
  - destruct s as [| c s]; [discriminate |].
    destruct (JS.atomMatches a c); [| discriminate].
    intros H. apply IH in H. eapply Forall_impl; [exact H |].
    simpl. intros; lia.
  - intros H. apply greedy_split in H as (taken & rest & Hk & Hlen).
    destruct (JS.exec p rest) as [groups' |] eqn:Hp; [| discriminate].
    injection Hk as <-. apply IH in Hp. simpl in Hlen.
    assert (Hrest : Forall (fun g => String.length g <= String.length s) groups')
      by (eapply Forall_impl; [exact Hp |]; simpl; intros; lia).
    destruct capture; [constructor |]; auto.
    unfold JS.taken_string. rewrite rev_append_length. simpl. lia.
  - destruct s as [| c s]; [discriminate |].
    destruct (JS.atomMatches a c); [| discriminate].
    intros H. apply greedy_split in H as (taken & rest & Hk & Hlen).
    destruct (JS.exec p rest) as [groups' |] eqn:Hp; [| discriminate].
    injection Hk as <-. apply IH in Hp. simpl in Hlen.
    assert (Hrest : Forall (fun g => String.length g <= String.length (String c s)) groups')
      by (eapply Forall_impl; [exact Hp |]; simpl; intros; lia).
    destruct capture; [constructor |]; auto.
    unfold JS.taken_string. rewrite rev_append_length. simpl. lia.
Qed.

Lemma inputCall_group expr group :
  JS.exec inputCallPattern expr = Some [group] ->
  String.length (JS.trim group) < String.length expr.
Proof.
  unfold inputCallPattern. destruct expr as [| c expr]; [discriminate |].
  change (JS.exec (JS.lits "input(" ++ [JS.Star true JS.Dot; JS.One (JS.Lit ")")])
            (String c expr))
    with (if JS.atomMatches (JS.Lit "i") c
          then JS.exec (JS.lits "nput(" ++ [JS.Star true JS.Dot; JS.One (JS.Lit ")")])
                 expr
          else None).
  destruct (JS.atomMatches _ c); [| discriminate].
  intros H. apply exec_groups in H. inversion H; subst.
  pose proof (trim_length group). simpl. lia.
Qed.

(** Past the length of the text, the fuel does not matter: the recursion of
    the evaluator is on strictly shorter texts. *)
Lemma evaluate_fuel :
  forall fuel1 fuel2 expr scope,
    String.length expr < fuel1 -> String.length expr < fuel2 ->
    evaluate fuel1 expr scope = evaluate fuel2 expr scope.
Proof.
  induction fuel1 as [| fuel1 IH]; intros fuel2 expr scope H1 H2; [lia |].
  destruct fuel2 as [| fuel2]; [lia |].
  cbn [evaluate].
  pose proof (trim_length expr) as Ht.
  assert (Hsub : forall isOp i c scope',
    scan isOp (JS.trim expr) (String.length (JS.trim expr)) false = Some (i, c) ->
    evaluate fuel1 (JS.substringTo (JS.trim expr) i) scope'
    = evaluate fuel2 (JS.substringTo (JS.trim expr) i) scope' /\
    forall scope'',
    evaluate fuel1 (JS.substringFrom (JS.trim expr) (i + 1)) scope''
    = evaluate fuel2 (JS.substringFrom (JS.trim expr) (i + 1)) scope'').
  { intros isOp i c scope' Hs. apply scan_bound in Hs.
    pose proof (substring_length (JS.trim expr) 0 i).
    pose proof (substring_length (JS.trim expr) (i + 1)
                  (String.length (JS.trim expr) - (i + 1))).
    unfold JS.substringTo, JS.substringFrom.
    split; [| intros scope'']; apply IH; lia. }
  destruct (scan isAddOp _ _ _) as [[i char] |] eqn:Ha.
  { unfold bind. destruct (Hsub _ _ _ scope Ha) as [-> Hr].
    destruct (evaluate fuel2 _ scope) as [scope' [l |]]; [| reflexivity].
    rewrite Hr. reflexivity. }
  destruct (scan isMulOp _ _ _) as [[i char] |] eqn:Hm.
  { unfold bind. destruct (Hsub _ _ _ scope Hm) as [-> Hr].
    destruct (evaluate fuel2 _ scope) as [scope' [l |]]; [| reflexivity].
    rewrite Hr. reflexivity. }
  destruct (_ || _); [reflexivity |].
  destruct (negb _); [reflexivity |].
  unfold bind, readProperty. destruct (scope !! _); [reflexivity |].
  destruct (JS.exec _ _) as [[| group [| ? ?]] |] eqn:He; try reflexivity.
  destruct (negb _); [| reflexivity].
  apply inputCall_group in He. pose proof (trim_length (JS.trim expr)).
  apply IH; lia.
Qed.

(** [evaluateExpression] is the evaluator with any fuel past the length of
    the text. *)
Lemma evaluateExpression_fuel fuel expr scope :
  String.length expr < fuel ->
  evaluate fuel expr scope = evaluateExpression expr scope.
Proof. intros H. apply evaluate_fuel; [exact H | lia]. Qed.

(** ** Lists of steps *)

Lemma updateLast_snoc (f : ExecutionStep -> ExecutionStep) tr s :
  updateLast f (tr ++ [s]) = tr ++ [f s].
Proof.
  induction tr as [| a tr IH]; [reflexivity |].
  simpl. rewrite IH. destruct (tr ++ [s]) eqn:E; [| reflexivity].
  destruct tr; discriminate.
Qed.

Lemma pop_snoc tr s : pop (tr ++ [s]) = (Some s, tr).
Proof.
  induction tr as [| a tr IH]; [reflexivity |].
  simpl. rewrite IH. destruct (tr ++ [s]) eqn:E; [| reflexivity].
  destruct tr; discriminate.
Qed.

Lemma scopeAfter_snoc scope0 tr s : scopeAfter scope0 (tr ++ [s]) = variables s.
Proof. unfold scopeAfter. rewrite last_snoc. reflexivity. Qed.

Lemma scopeAfter_app scope0 tr1 tr2 :
  scopeAfter scope0 (tr1 ++ tr2) = scopeAfter (scopeAfter scope0 tr1) tr2.
Proof.
  destruct tr2 as [| s tr2 _] using rev_ind.
  - rewrite app_nil_r. reflexivity.
  - rewrite app_assoc, !scopeAfter_snoc. reflexivity.
Qed.

Lemma scopeAfter_cons scope0 s tr :
  scopeAfter scope0 (s :: tr) = scopeAfter (variables s) tr.
Proof. apply (scopeAfter_app scope0 [s] tr). Qed.

Lemma scopeAfter_remap loopBody scope0 tr :
  scopeAfter scope0 (map (remap loopBody) tr) = scopeAfter scope0 tr.
Proof.
  destruct tr as [| s tr _] using rev_ind; [reflexivity |].
  rewrite map_app. simpl. rewrite !scopeAfter_snoc. reflexivity.
Qed.

Lemma noError_remap loopBody tr :
  Forall noError tr -> Forall noError (map (remap loopBody) tr).
Proof. intros H. apply Forall_map. exact H. Qed.

(** ** Splitting and joining lines *)

Lemma split_not_nil sep s : JS.split sep s <> [].
Proof.
  destruct s as [| c s]; simpl; [discriminate |].
  destruct (Ascii.eqb c sep); [discriminate |].
  destruct (JS.split sep s); discriminate.
Qed.

Lemma split_lines sep s : Forall (fun l => contains sep l = false) (JS.split sep s).
Proof.
  induction s as [| c s IH]; simpl.
  - repeat constructor.
  - destruct (Ascii.eqb c sep) eqn:E.
    + constructor; [reflexivity | exact IH].
    + destruct (JS.split sep s) as [| h t]; inversion IH; subst;
        constructor; simpl; rewrite ?E; auto.
Qed.

Lemma split_line sep s : contains sep s = false -> JS.split sep s = [s].
Proof.
  induction s as [| c s IH]; simpl; [reflexivity |].
  intros H. apply orb_false_iff in H as [Hc Hs].
  rewrite Hc, (IH Hs). reflexivity.
Qed.

Lemma split_app sep s rest :
  contains sep s = false ->
  JS.split sep (s +:+ String sep rest) = s :: JS.split sep rest.
Proof.
  induction s as [| c s IH]; simpl.
  - intros _. rewrite Ascii.eqb_refl. reflexivity.
  - intros H. apply orb_false_iff in H as [Hc Hs].
    rewrite Hc, (IH Hs). reflexivity.
Qed.

Lemma split_join sep l :
  l <> [] -> Forall (fun x => contains sep x = false) l ->
  JS.split sep (JS.join (String sep EmptyString) l) = l.
Proof.
  induction l as [| x l IH]; [congruence |].
  intros _ H. inversion H as [| ? ? Hx Hl]; subst.
  destruct l as [| y l].
  - simpl. apply split_line, Hx.
  - change (JS.join (String sep EmptyString) (x :: y :: l))
      with (x +:+ String sep (JS.join (String sep EmptyString) (y :: l))).
    rewrite split_app by exact Hx. f_equal. apply IH; [discriminate | exact Hl].
Qed.

(** ** The body of a loop *)

Lemma collectBody_ok lines baseIndent :
  forall rest j acc,
    (forall k l, rest !! k = Some l -> lines !! (j + k) = Some l) ->
    bodyOK lines acc ->
    bodyOK lines (fst (collectBody baseIndent rest j acc)).
Proof.
  induction rest as [| nextLine rest IH]; intros j acc Hrest Hacc; simpl.
  - exact Hacc.
  - assert (Hnext : forall k l, rest !! k = Some l -> lines !! (S j + k) = Some l).
    { intros k l Hk. specialize (Hrest (S k) l Hk).
      replace (S j + k) with (j + S k) by lia. exact Hrest. }
    destruct (JS.isEmpty _).
    + apply IH; assumption.
    + destruct (_ <? _).
      * apply IH; [assumption |].
        apply Forall_app; split; [exact Hacc |].
        constructor; [| constructor]. simpl.
        specialize (Hrest 0 nextLine eq_refl).
        rewrite Nat.add_0_r in Hrest. exact Hrest.
      * exact Hacc.
Qed.

Lemma collectBody_drop lines baseIndent i :
  bodyOK lines (fst (collectBody baseIndent (drop (i + 1) lines) (i + 1) [])).
Proof.
  apply collectBody_ok; [| constructor].
  intros k l H. rewrite lookup_drop in H. exact H.
Qed.

(** ** The sub-trace of a loop iteration *)

(** When every step of the sub-trace is on a line of the body, [forEachStep]
    pushes them all, remapped, and never throws. *)
Lemma forEachStep_mapped loopBody :
  forall steps tr scope,
    Forall (fun s => exists n e, lineNumber s = S n /\ loopBody !! n = Some e) steps ->
    forEachStep loopBody steps tr scope
    = Continue 0 (tr ++ map (remap loopBody) steps) (scopeAfter scope steps).
Proof.
  induction steps as [| s steps IH]; intros tr scope H; simpl.
  - rewrite app_nil_r. reflexivity.
  - inversion H as [| ? ? (n & [line index] & Hn & He) Hsteps]; subst.
    rewrite Hn, He. rewrite (IH _ _ Hsteps). unfold push.
    rewrite <- app_assoc. simpl. rewrite scopeAfter_cons.
    unfold remap at 2. rewrite Hn. simpl. rewrite Nat.sub_0_r, He. reflexivity.
Qed.

Lemma isStatement_empty : isStatement EmptyString = false.
Proof. reflexivity. Qed.

(** The steps of a run of the body's text are on lines of the body. *)
Lemma body_steps lines loopBody steps :
  Forall (fun l => contains JS.newline l = false) lines ->
  bodyOK lines loopBody ->
  Forall (onLine (JS.split JS.newline
            (JS.join (String JS.newline EmptyString) (map fst loopBody)))) steps ->
  Forall (fun s => exists n e,
            lineNumber s = S n /\ loopBody !! n = Some e /\
            isStatement (fst e) = true) steps.
Proof.
  intros Hlines Hbody Hsteps.
  destruct loopBody as [| e0 loopBody].
  - (* the text is empty: its only line is blank, so there is no step *)
    simpl in Hsteps. destruct steps as [| s steps]; [constructor |].
    inversion Hsteps as [| ? ? (n & line & _ & Hl & Hst) _]; subst.
    destruct n; [| discriminate]. injection Hl as <-. discriminate.
  - rewrite split_join in Hsteps.
    + eapply Forall_impl; [exact Hsteps |].
      intros s (n & line & Hn & Hl & Hst).
      change (map fst (e0 :: loopBody)) with (fst <$> (e0 :: loopBody)) in Hl.
      rewrite list_lookup_fmap in Hl.
      destruct ((e0 :: loopBody) !! n) as [e |] eqn:He; [| discriminate].
      injection Hl as <-. eauto.
    + discriminate.
    + change (map fst (e0 :: loopBody)) with (fst <$> (e0 :: loopBody)).
      apply Forall_fmap. eapply Forall_impl; [exact Hbody |].
      intros e He. simpl. rewrite Forall_forall in Hlines. apply Hlines.
      apply list_elem_of_lookup. exists (snd e). exact He.
Qed.

Lemma onLine_remap lines loopBody steps :
  bodyOK lines loopBody ->
  Forall (fun s => exists n e,
            lineNumber s = S n /\ loopBody !! n = Some e /\
            isStatement (fst e) = true) steps ->
  Forall (onLine lines) (map (remap loopBody) steps).
Proof.
  intros Hbody Hsteps. apply Forall_map.
  eapply Forall_impl; [exact Hsteps |].
  intros s (n & [line index] & Hn & He & Hst).
  unfold onLine, remap. rewrite Hn. simpl. rewrite Nat.sub_0_r, He. simpl.
  exists index, line. split; [lia |]. split; [| exact Hst].
  unfold bodyOK in Hbody. rewrite Forall_forall in Hbody.
  apply (Hbody (line, index)).
  apply list_elem_of_lookup. eauto.
Qed.

(** ** The invariant of the trace builder *)

Section Invariant.

Variable recurse : string -> Scope -> option ExecutorResponse.
Hypothesis recurse_inv : forall code scope r,
  recurse code scope = Some r -> respInv (JS.split JS.newline code) scope r.

Variable lines : list string.
Hypothesis lines_split : Forall (fun l => contains JS.newline l = false) lines.

Variable scope0 : Scope.

Lemma stInv_push tr scope n line d :
  stInv lines scope0 tr scope ->
  lines !! n = Some line -> isStatement line = true ->
  forall scope', stInv lines scope0 (push tr (plainStep (S n) d scope')) scope'.
Proof.
  intros (Hon & Hne & Hsc) Hl Hst scope'. unfold push. split; [| split].
  - apply Forall_app. split; [exact Hon |]. constructor; [| constructor].
    exists n, line. auto.
  - apply Forall_app. split; [exact Hne |]. constructor; [| constructor]. reflexivity.
  - apply scopeAfter_snoc.
Qed.

Lemma thInv_push tr scope n d message :
  stInv lines scope0 tr scope -> message <> EmptyString ->
  thInv lines scope0 message (push tr (plainStep n d scope)).
Proof.
  intros (Hon & Hne & Hsc) Hm. split; [exact Hm |].
  exists tr, (plainStep n d scope). auto.
Qed.

Lemma iterate_inv loopVar n line loopBody loopLimit :
  lines !! n = Some line -> isStatement line = true ->
  bodyOK lines loopBody ->
  forall fuel k tr scope o,
    stInv lines scope0 tr scope ->
    iterate recurse fuel k loopLimit loopVar (S n) loopBody tr scope = Some o ->
    outInv lines scope0 o.
Proof.
  intros Hl Hst Hbody.
  induction fuel as [| fuel IH]; intros k tr scope o Hinv; simpl.
  { destruct (JS.ltb k loopLimit); [discriminate |]. intros [= <-]. exact Hinv. }
  destruct (JS.ltb k loopLimit); [| intros [= <-]; exact Hinv].
  set (scope1 := setProperty loopVar (VNum k) scope).
  set (tr1 := push tr _).
  assert (Hinv1 : stInv lines scope0 tr1 scope1)
    by (eapply stInv_push; eauto).
  destruct (recurse _ scope1) as [sub |] eqn:Hsub; [| discriminate].
  apply recurse_inv in Hsub as (Hon & Herr).
  pose proof (body_steps _ _ _ lines_split Hbody Hon) as Hsteps.
  rewrite forEachStep_mapped
    by (eapply Forall_impl; [exact Hsteps |]; intros s (m & e & ? & ? & _); eauto).
  destruct Hinv1 as (Hon1 & Hne1 & Hsc1).
  assert (Hon2 : Forall (onLine lines) (tr1 ++ map (remap loopBody) (trace sub))).
  { apply Forall_app. split; [exact Hon1 |]. eapply onLine_remap; eauto. }
  destruct (error sub) as [message |].
  - destruct Herr as (Hm & init & e & Htr & Hne & He & _ & _ & Hv).
    destruct message as [| c message]; [congruence |]. simpl.
    intros [= <-]. split; [discriminate |].
    exists (tr1 ++ map (remap loopBody) init), (remap loopBody e).
    rewrite Htr, map_app, app_assoc in Hon2 |- *. simpl.
    apply Forall_app in Hon2 as [Hon2 _].
    repeat split; auto.
    + apply Forall_app. split; [exact Hne1 |]. apply noError_remap, Hne.
    + simpl. rewrite Hv, scopeAfter_app, Hsc1, scopeAfter_remap. reflexivity.
  - apply IH. repeat split; auto.
    + apply Forall_app. split; [exact Hne1 |]. apply noError_remap, Herr.
    + rewrite scopeAfter_app, Hsc1, scopeAfter_remap. reflexivity.
Qed.

Lemma stInv_updateLast tr scope n line d scope' f :
  stInv lines scope0 tr scope ->
  lines !! n = Some line -> isStatement line = true ->
  lineNumber (f (plainStep (S n) d scope)) = S n ->
  isError (f (plainStep (S n) d scope)) = false ->
  variables (f (plainStep (S n) d scope)) = scope' ->
  stInv lines scope0 (updateLast f (push tr (plainStep (S n) d scope))) scope'.
Proof.
  intros (Hon & Hne & Hsc) Hl Hst Hn He Hv. unfold push.
  rewrite updateLast_snoc. split; [| split].
  - apply Forall_app. split; [exact Hon |]. constructor; [| constructor].
    exists n, line. auto.
  - apply Forall_app. split; [exact Hne |]. constructor; [| constructor]. exact He.
  - rewrite scopeAfter_snoc. exact Hv.
Qed.

Lemma execLine_inv fuel i line tr scope o :
  lines !! i = Some line ->
  stInv lines scope0 tr scope ->
  execLine recurse fuel lines i line tr scope = Some o ->
  outInv lines scope0 o /\
  (forall message tr' scope', o = Thrown message tr' scope' -> isStatement line = true).
Proof.
  intros Hl Hinv. unfold execLine.
  destruct (_ || _) eqn:Hst.
  { intros [= <-]. split; [exact Hinv | discriminate]. }
  assert (Hst' : isStatement line = true) by (unfold isStatement; rewrite Hst; reflexivity).
  intros H. split; [| auto].
  replace (i + 1) with (S i) in * by lia.
  revert H.
  destruct (JS.exec inputPattern _) as [[| varName [| group [| ? ?]]] |].
  3: {  (* var = input(...) *)
    destruct (negb (JS.isEmpty (JS.trim group))).
    - destruct (evaluateExpression_scope (JS.trim group) scope) as [c Hc].
      rewrite Hc. destruct c as [prompt | message]; intros [= <-]; simpl.
      + pose proof (stInv_updateLast tr scope i line
          (VStr ("Executing line: " +:+ JS.trim line)) scope
          (asInputRequest (if truthy prompt then prompt
                           else VStr "Awaiting user input...") varName)
          Hinv Hl Hst' eq_refl eq_refl eq_refl) as (Hon & Hne & _).
        split; assumption.
      + apply thInv_push; [exact Hinv |].
        eapply evaluateExpression_message, Hc.
    - intros [= <-]; simpl.
      pose proof (stInv_updateLast tr scope i line
        (VStr ("Executing line: " +:+ JS.trim line)) scope
        (asInputRequest (VStr "Awaiting user input...") varName)
        Hinv Hl Hst' eq_refl eq_refl eq_refl) as (Hon & Hne & _).
      split; assumption. }
  all: destruct (JS.exec forLoopPattern _) as [[| loopVar [| loopLimitExpr [| ? ?]]] |].
  all: try match goal with
  | |- context [JS.exec assignmentPattern ?l] =>
      destruct (JS.exec assignmentPattern l) as [[| varName' [| valueExpr [| ? ?]]] |]
  end.
  all: try match goal with
  | |- context [JS.exec printPattern ?l] =>
      destruct (JS.exec printPattern l) as [[| group' [| ? ?]] |]
  end.
  all: try (intros [= <-]; apply thInv_push; [exact Hinv | discriminate]).
  all: try match goal with
  | |- context [evaluateExpression ?e ?s] =>
      let c := fresh "c" in let Hc := fresh "Hc" in
      destruct (evaluateExpression_scope e s) as [c Hc];
      try rewrite Hc;
      assert (Hmsg : forall message, c = Throw message -> message <> EmptyString)
        by (intros message ->; eapply evaluateExpression_message, Hc)
  end.
  all: try (destruct (negb (JS.isEmpty _));
            [| intros [= <-]; apply thInv_push; [exact Hinv | discriminate]]).
  (* print and assignment *)
  all: try (destruct c as [value | message]; intros [= <-];
            [| apply thInv_push; [exact Hinv | apply Hmsg; reflexivity]];
            simpl; unfold push; rewrite !updateLast_snoc;
            destruct Hinv as (Hon & Hne & _);
            (split; [| split];
             [ apply Forall_app; split; [exact Hon |]; constructor; [| constructor];
               exists i, line; auto
             | apply Forall_app; split; [exact Hne |]; constructor; [| constructor];
               reflexivity
             | apply scopeAfter_snoc ])).
  (* the loop *)
  all: destruct c as [[loopLimit | text] | message];
    [ | intros [= <-]; apply thInv_push; [exact Hinv | discriminate]
      | intros [= <-]; apply thInv_push; [exact Hinv | apply Hmsg; reflexivity] ].
  all: destruct (collectBody _ _ _ _) as [loopBody j] eqn:Hcb.
  all: pose proof (collectBody_drop lines (JS.leadingWhiteSpace line) i) as Hbody;
    replace (i + 1) with (S i) in Hbody by lia;
    rewrite Hcb in Hbody; simpl in Hbody.
  all: match goal with
  | |- context [iterate ?rec ?f ?k ?lim ?v ?n ?b ?t ?s] =>
      destruct (iterate rec f k lim v n b t s) as [o' |] eqn:Hit;
      [| discriminate];
      eapply iterate_inv in Hit; eauto;
      [ destruct o'; intros [= <-]; exact Hit
      | eapply stInv_updateLast; eauto ]
  end.
Qed.

Lemma run_inv :
  forall fuel i tr scope r,
    stInv lines scope0 tr scope ->
    run recurse fuel lines i tr scope = Some r ->
    respInv lines scope0 r.
Proof.
  induction fuel as [| fuel IH]; intros i tr scope r Hinv; simpl;
    destruct (lines !! i) as [line |] eqn:Hl.
  1: discriminate.
  1, 3: intros [= <-]; destruct Hinv as (Hon & Hne & _); split; assumption.
  destruct (execLine recurse fuel lines i line tr scope) as [o |] eqn:Hex;
    [| discriminate].
  destruct (execLine_inv _ _ _ _ _ _ Hl Hinv Hex) as [Ho Hst].
  destruct o as [i' tr' scope' | r' | message tr' scope'].
  - apply IH. exact Ho.
  - intros [= <-]. exact Ho.
  - intros [= <-]. specialize (Hst _ _ _ eq_refl).
    destruct Ho as (Hm & init & p & -> & Hon & Hne & Hv).
    unfold catch. rewrite pop_snoc. unfold push. split; simpl.
    + apply Forall_app. split; [exact Hon |]. constructor; [| constructor].
      exists i, line. split; [simpl; lia | auto].
    + split; [exact Hm |]. eexists init, _. repeat split; auto.
Qed.

End Invariant.

(** Every response of [getExecutionTrace] satisfies the invariant. *)
Lemma getExecutionTrace_inv :
  forall fuel code initialScope startLine providedInput r,
    getExecutionTrace fuel code initialScope startLine providedInput = Some r ->
    respInv (JS.split JS.newline code) (provideInput initialScope providedInput) r.
Proof.
  induction fuel as [| fuel IH]; intros code initialScope startLine providedInput r;
    simpl; [discriminate |].
  apply run_inv.
  - intros code' scope' r' H. apply (IH _ _ _ _ _ H).
  - apply split_lines.
  - repeat split; constructor.
Qed.

(** ** More fuel does not change a response *)

Section Fuel.

Variables recurse recurse' : string -> Scope -> option ExecutorResponse.
Hypothesis recurse_more : forall code scope r,
  recurse code scope = Some r -> recurse' code scope = Some r.

Lemma iterate_more loopLimit loopVar lineNumber loopBody :
  forall fuel fuel' k tr scope o,
    fuel <= fuel' ->
    iterate recurse fuel k loopLimit loopVar lineNumber loopBody tr scope = Some o ->
    iterate recurse' fuel' k loopLimit loopVar lineNumber loopBody tr scope = Some o.
Proof.
  induction fuel as [| fuel IH]; intros fuel' k tr scope o Hle; simpl.
  - destruct fuel'; simpl; destruct (JS.ltb k loopLimit); auto; discriminate.
  - destruct fuel' as [| fuel']; [lia |]. simpl.
    destruct (JS.ltb k loopLimit); [| auto].
    destruct (recurse _ _) as [sub |] eqn:Hsub; [| discriminate].
    rewrite (recurse_more _ _ _ Hsub).
    destruct (forEachStep _ _ _ _); [| auto | auto].
    destruct (error sub) as [message |]; [destruct (negb _); [auto |] |];
      apply IH; lia.
Qed.

Lemma execLine_more fuel fuel' lines i line tr scope o :
  fuel <= fuel' ->
  execLine recurse fuel lines i line tr scope = Some o ->
  execLine recurse' fuel' lines i line tr scope = Some o.
Proof.
  intros Hle. unfold execLine.
  destruct (_ || _); [auto |].
  destruct (JS.exec inputPattern _) as [[| varName [| group [| ? ?]]] |]; auto.
  all: destruct (JS.exec forLoopPattern _) as [[| loopVar [| loopLimitExpr [| ? ?]]] |];
    auto.
  all: destruct (evaluateExpression loopLimitExpr scope) as [scope1 [[loopLimit | ?] | ?]];
    auto.
  all: destruct (collectBody _ _ _ _) as [loopBody j].
  all: match goal with
  | |- context [iterate ?rec ?f ?k ?lim ?v ?n ?b ?t ?s] =>
      destruct (iterate rec f k lim v n b t s) as [o' |] eqn:Hit;
      [| discriminate];
      rewrite (iterate_more _ _ _ _ _ _ _ _ _ _ Hle Hit); auto
  end.
Qed.

Lemma run_more lines :
  forall fuel fuel' i tr scope r,
    fuel <= fuel' ->
    run recurse fuel lines i tr scope = Some r ->
    run recurse' fuel' lines i tr scope = Some r.
Proof.
  induction fuel as [| fuel IH]; intros fuel' i tr scope r Hle; simpl.
  - destruct fuel'; simpl; destruct (lines !! i); auto; discriminate.
  - destruct fuel' as [| fuel']; [lia |]. simpl.
    destruct (lines !! i) as [line |]; [| auto].
    destruct (execLine recurse fuel lines i line tr scope) as [o |] eqn:Hex;
      [| discriminate].
    assert (Hle' : fuel <= fuel') by lia.
    rewrite (execLine_more _ _ _ _ _ _ _ _ Hle' Hex).
    destruct o; auto with lia.
Qed.

End Fuel.

Lemma getExecutionTrace_more :
  forall fuel fuel' code initialScope startLine providedInput r,
    fuel <= fuel' ->
    getExecutionTrace fuel code initialScope startLine providedInput = Some r ->
    getExecutionTrace fuel' code initialScope startLine providedInput = Some r.
Proof.
  induction fuel as [| fuel IH]; intros fuel' code initialScope startLine
    providedInput r Hle; simpl; [discriminate |].
  destruct fuel' as [| fuel']; [lia |]. simpl.
  apply run_more; [| lia].
  intros code' scope' r'. apply IH. lia.
Qed.

Lemma getExecutionTrace_extra fuel extra code initialScope startLine providedInput r :
  getExecutionTrace fuel code initialScope startLine providedInput = Some r ->
  getExecutionTrace (fuel + extra) code initialScope startLine providedInput = Some r.
Proof. apply getExecutionTrace_more. lia. Qed.

(** ** Texts without operators *)

Lemma allChars_get p s :
  allChars p s = true -> forall i c, String.get i s = Some c -> p c = true.
Proof.
  induction s as [| d s IH]; simpl; [discriminate |].
  intros H. apply andb_true_iff in H as [Hd Hs].
  intros [| i] c; [intros [= <-]; exact Hd | apply IH, Hs].
Qed.

Lemma allChars_impl (p q : ascii -> bool) s :
  (forall c, p c = true -> q c = true) -> allChars p s = true -> allChars q s = true.
Proof.
  intros Hpq. induction s as [| d s IH]; simpl; [reflexivity |].
  intros H. apply andb_true_iff in H as [Hd Hs].
  rewrite (Hpq _ Hd), (IH Hs). reflexivity.
Qed.

Lemma get_in_range s : forall i, i < String.length s -> exists c, String.get i s = Some c.
Proof.
  induction s as [| d s IH]; simpl; [lia |].
  intros [| i] H; [eauto | apply IH; lia].
Qed.

Lemma literalChar_facts c :
  literalChar c = true ->
  isAddOp c = false /\ isMulOp c = false /\ isQuote c = false /\
  JS.isWhiteSpace c = false.
Proof.
  unfold literalChar. intros H. apply negb_true_iff in H.
  apply orb_false_iff in H as [H Hw].
  apply orb_false_iff in H as [H Hq].
  apply orb_false_iff in H as [Ha Hm]. auto.
Qed.

(** The scan of a level finds nothing in a text of literal characters. *)
Lemma scan_literal isOp s :
  (forall c, literalChar c = true -> isOp c = false) ->
  allChars literalChar s = true ->
  forall n, n <= String.length s -> scan isOp s n false = None.
Proof.
  intros Hop Hs. induction n as [| n IH]; intros Hn; simpl; [reflexivity |].
  destruct (get_in_range s n ltac:(lia)) as [c Hc]. rewrite Hc.
  pose proof (allChars_get _ _ Hs _ _ Hc) as Hl.
  destruct (literalChar_facts _ Hl) as (_ & _ & Hq & _).
  rewrite Hq, (Hop _ Hl). simpl. apply IH. lia.
Qed.

(** The scan for [+] and [-] in a minus sign followed by literal characters
    stops at the minus sign. *)
Lemma scan_minus s :
  allChars literalChar s = true ->
  forall n, n <= String.length s ->
    scan isAddOp (String "-" s) (S n) false = Some (0, "-"%char).
Proof.
  intros Hs. induction n as [| n IH]; intros Hn; [reflexivity |].
  cbn [scan String.get].
  destruct (get_in_range s n ltac:(lia)) as [c Hc].
  change (String.get (S n) (String "-" s)) with (String.get n s). rewrite Hc.
  pose proof (allChars_get _ _ Hs _ _ Hc) as Hl.
  destruct (literalChar_facts _ Hl) as (Ha & _ & Hq & _).
  rewrite Hq, Ha. simpl negb. simpl andb. cbv iota. apply IH. lia.
Qed.

Lemma trimEnd_literal s : allChars literalChar s = true -> JS.trimEnd s = s.
Proof.
  induction s as [| c s IH]; simpl; [reflexivity |].
  intros H. apply andb_true_iff in H as [Hc Hs]. rewrite (IH Hs).
  destruct (literalChar_facts _ Hc) as (_ & _ & _ & Hw).
  destruct s; [rewrite Hw |]; reflexivity.
Qed.

Lemma trim_literal s : allChars literalChar s = true -> JS.trim s = s.
Proof.
  intros H. unfold JS.trim.
  replace (JS.trimStart s) with s; [apply trimEnd_literal, H |].
  destruct s as [| c s]; [reflexivity |]. simpl in *.
  apply andb_true_iff in H as [Hc _].
  destruct (literalChar_facts _ Hc) as (_ & _ & _ & Hw). rewrite Hw. reflexivity.
Qed.

Lemma substring_all s : String.substring 0 (String.length s) s = s.
Proof. induction s as [| c s IH]; simpl; [| rewrite IH]; reflexivity. Qed.

Lemma quote_free s c :
  allChars literalChar s = true -> isQuote c = true ->
  JS.startsWith s c = false.
Proof.
  destruct s as [| d s]; simpl; [reflexivity |].
  intros H Hq. apply andb_true_iff in H as [Hd _].
  destruct (literalChar_facts _ Hd) as (_ & _ & Hdq & _).
  destruct (Ascii.eqb d c) eqn:E; [| reflexivity].
  apply Ascii.eqb_eq in E. congruence.
Qed.

(** A text of literal characters that reads as a number evaluates to that
    number, whatever the fuel. *)
Lemma evaluate_literal fuel s scope :
  allChars literalChar s = true -> JS.isNaN (JS.Number s) = false ->
  evaluate (S fuel) s scope = (scope, Normal (VNum (JS.Number s))).
Proof.
  intros Hs Hn. cbn [evaluate]. rewrite !(trim_literal _ Hs).
  rewrite (scan_literal isAddOp s) by
    (auto; intros c Hc; apply (literalChar_facts _ Hc)).
  rewrite (scan_literal isMulOp s) by
    (auto; intros c Hc; apply (literalChar_facts _ Hc)).
  rewrite (quote_free s JS.dquote Hs eq_refl), (quote_free s JS.squote Hs eq_refl).
  simpl. rewrite Hn. reflexivity.
Qed.

(** Subtracting from zero negates, up to the equality of numbers. *)
Lemma sub_zero_opp (x : JS.number) :
  JS.isNaN x = false -> JS.eqb (JS.sub JS.zero x) (SFopp x) = true.
Proof.
  destruct x as [s | s | | s m e]; simpl; try discriminate; intros _.
  - destruct s; reflexivity.
  - destruct s; reflexivity.
  - unfold JS.eqb, SFeqb. simpl.
    rewrite Z.compare_refl, Pos.compare_cont_refl. destruct s; reflexivity.
Qed.

(** ** Matching the pattern of the loop header *)

Section Patterns.

Local Arguments String.append : simpl nomatch.

Lemma rev_append_app w : forall a b,
  JS.rev_append (JS.rev_append w a) b = JS.rev_append a (w +:+ b).
Proof.
  induction w as [| c w IH]; intros a b; simpl; [reflexivity |].
  rewrite IH. reflexivity.
Qed.

Lemma append_empty s : s +:+ EmptyString = s.
Proof. induction s as [| c s IH]; simpl; [| rewrite IH]; reflexivity. Qed.

Lemma taken_string_run w c :
  JS.taken_string (JS.rev_append w (String c EmptyString)) = String c w.
Proof.
  unfold JS.taken_string. rewrite rev_append_app. simpl.
  rewrite append_empty. reflexivity.
Qed.

Lemma greedy_run {A : Type} a (k : string -> string -> option A) rest r :
  stops a rest ->
  forall w taken,
    allChars (JS.atomMatches a) w = true ->
    k (JS.rev_append w taken) rest = Some r ->
    JS.greedy a taken (w +:+ rest) k = Some r.
Proof.
  intros Hstop. induction w as [| c w IH]; intros taken Hw Hk; simpl in *.
  - destruct rest as [| d rest]; simpl in *; [exact Hk |].
    rewrite Hstop. exact Hk.
  - apply andb_true_iff in Hw as [Hc Hw]. rewrite Hc.
    rewrite (IH _ Hw Hk). reflexivity.
Qed.

Lemma exec_lits t p s : JS.exec (JS.lits t ++ p) (t +:+ s) = JS.exec p s.
Proof.
  induction t as [| c t IH]; simpl; [reflexivity |].
  rewrite Ascii.eqb_refl. exact IH.
Qed.

(** A [+] item takes a whole run when the rest of the pattern matches what
    follows the run. *)
Lemma exec_plus_run capture a p c w rest groups :
  JS.atomMatches a c = true ->
  allChars (JS.atomMatches a) w = true ->
  stops a rest ->
  JS.exec p rest = Some groups ->
  JS.exec (JS.Plus capture a :: p) (String c w +:+ rest)
  = Some (if capture then String c w :: groups else groups).
Proof.
  intros Hc Hw Hstop Hp. simpl. rewrite Hc.
  apply greedy_run; [exact Hstop | exact Hw |].
  rewrite Hp, taken_string_run. reflexivity.
Qed.


Lemma isWord_inv s :
  isWord s = true ->
  exists c w, s = String c w /\ JS.isWordChar c = true /\
              allChars JS.isWordChar w = true.
Proof.
  destruct s as [| c w]; [discriminate |]. unfold isWord. simpl.
  intros H. apply andb_true_iff in H as [Hc Hw]. eauto.
Qed.



End Patterns.

Lemma collectBody_from baseIndent :
  forall rest j acc, j <= snd (collectBody baseIndent rest j acc).
Proof.
  induction rest as [| nextLine rest IH]; intros j acc; simpl; [lia |].
  destruct (JS.isEmpty _); [specialize (IH (S j) acc); lia |].
  destruct (_ <? _); [| simpl; lia].
  specialize (IH (S j) (acc ++ [(nextLine, j)])). lia.
Qed.

(** ** The counters of a loop are the natural numbers *)

Section Counters.

Local Open Scope Z_scope.






















End Counters.

(** ** The loop runs as the specification words it *)



Section LoopSpec.

Variable recurse : string -> Scope -> option ExecutorResponse.
Hypothesis recurse_inv : forall code scope r,
  recurse code scope = Some r -> respInv (JS.split JS.newline code) scope r.

Variable lines : list string.
Hypothesis lines_split : Forall (fun l => contains JS.newline l = false) lines.

Variable loopVar : string.
Variable lineNumber : nat.
Variable loopBody : list (string * nat).
Hypothesis body_ok : bodyOK lines loopBody.
Variable loopLimit : JS.number.





End LoopSpec.


(** ** The claims of the specification *)

Lemma getExecutionTrace_deterministic fuel1 fuel2 code initialScope startLine
    providedInput r1 r2 :
  getExecutionTrace fuel1 code initialScope startLine providedInput = Some r1 ->
  getExecutionTrace fuel2 code initialScope startLine providedInput = Some r2 ->
  r1 = r2.
Proof.
  intros H1 H2.
  apply (getExecutionTrace_more _ (max fuel1 fuel2)) in H1; [| lia].
  apply (getExecutionTrace_more _ (max fuel1 fuel2)) in H2; [| lia].
  congruence.
Qed.

(** C1. Input round-trip with numeric coercion: on the source
    [age = input("Age: ")] followed by [print(age)], the call from line 0
    with the empty scope returns, without an error, a trace of exactly one
    step, which requires input for the variable [age]; the text 30 is coerced
    to the number 30; and the second call, from the line of the pausing step
    with the provided input, returns without an error a trace whose only step
    is the print step with output 30: no step is emitted for the assignment. *)
Theorem input_round_trip (fuel : nat) :
  getExecutionTrace (2 + fuel) ageProgram ∅ 0 None
  = Some {| trace := [ {| lineNumber := 1; description := VStr "Age: ";
                          variables := ∅; output := None; isError := false;
                          requiresInput := true;
                          inputVariable := Some "age" |} ];
            error := None |}
  /\ coerceInput "30" = VNum (JS.ofZ 30)
  /\ getExecutionTrace (2 + fuel) ageProgram ∅ 1 (Some ("age", "30"))
     = Some {| trace := [ {| lineNumber := 2;
                             description := VStr "Printing output";
                             variables := {[ "age" := VNum (JS.ofZ 30) ]};
                             output := Some "30"; isError := false;
                             requiresInput := false;
                             inputVariable := None |} ];
               error := None |}.
Proof.
  split; [| split].
  - apply getExecutionTrace_extra. vm_compute. reflexivity.
  - vm_compute. reflexivity.
  - apply getExecutionTrace_extra. vm_compute. reflexivity.
Qed.

(** C2, at the failing input. An input statement in the body of a loop: the
    call returns without an error a trace in which a step that requires input
    is followed by further steps (the next iteration and its own pause), so a
    step with [requiresInput] is not the last step of the trace. *)
Theorem pause_inside_loop_not_last (fuel : nat) :
  exists r before pause after,
    getExecutionTrace (4 + fuel) inputLoopProgram ∅ 0 None = Some r /\
    error r = None /\
    trace r = before ++ pause :: after /\
    requiresInput pause = true /\
    lineNumber pause = 2 /\
    length after = 2.
Proof.
  eexists _, [_; _], _, [_; _]. split.
  - apply getExecutionTrace_extra. vm_compute. reflexivity.
  - simpl. auto.
Qed.

(** What does hold of the two flags: no step has both, and a step with
    [isError] is the last step of the trace. *)
Lemma flags_exclusive fuel code initialScope startLine providedInput r :
  getExecutionTrace fuel code initialScope startLine providedInput = Some r ->
  Forall (fun s => isError s = false \/ requiresInput s = false) (trace r) /\
  (forall before e after,
     trace r = before ++ e :: after -> isError e = true -> after = []).
Proof.
  intros H. apply getExecutionTrace_inv in H as [_ H].
  destruct (error r) as [message |].
  - destruct H as (_ & init & e & -> & Hinit & He & Hr & _). split.
    + apply Forall_app. split.
      * eapply Forall_impl; [exact Hinit |]. intros s Hs. left. exact Hs.
      * constructor; [right; exact Hr | constructor].
    + intros before e' after Heq He'.
      destruct after as [| a after _] using rev_ind; [reflexivity |].
      change (before ++ e' :: after ++ [a]) with (before ++ (e' :: after) ++ [a]) in Heq.
      rewrite app_assoc in Heq. apply app_inj_tail in Heq as [-> _].
      apply Forall_app in Hinit as [_ Hinit]. inversion Hinit; subst.
      unfold noError in *. congruence.
  - split.
    + eapply Forall_impl; [exact H |]. intros s Hs. left. exact Hs.
    + intros before e after Heq He. rewrite Heq in H.
      apply Forall_app in H as [_ H]. inversion H; subst.
      unfold noError in *. congruence.
Qed.

(** C3. Error string iff error step: the error of a response is not null
    exactly when its trace ends in a step with [isError]; and a response
    whose last step requires input has a null error. *)
Theorem error_iff_error_step fuel code initialScope startLine providedInput r :
  getExecutionTrace fuel code initialScope startLine providedInput = Some r ->
  (error r <> None <-> endsInError r) /\
  (forall e, last (trace r) = Some e -> requiresInput e = true -> error r = None).
Proof.
  intros H. apply getExecutionTrace_inv in H as [_ H]. unfold endsInError.
  destruct (error r) as [message |].
  - destruct H as (_ & init & e & -> & _ & He & Hr & _).
    rewrite last_snoc. split.
    + split; [eauto | discriminate].
    + intros e' [= <-]. congruence.
  - split; [| reflexivity]. split; [congruence |].
    intros (e & Hlast & He). exfalso.
    apply last_Some in Hlast as [init Hinit]. rewrite Hinit in H.
    apply Forall_app in H as [_ H]. inversion H; subst.
    unfold noError in *. congruence.
Qed.

Lemma error_iff_error_step_witness :
  exists r,
    getExecutionTrace 2 "x = 5 / 0" ∅ 0 None = Some r /\
    (error r <> None <-> endsInError r) /\
    (forall e, last (trace r) = Some e -> requiresInput e = true -> error r = None).
Proof.
  eexists. split; [vm_compute; reflexivity |].
  apply (error_iff_error_step 2 "x = 5 / 0" ∅ 0 None). vm_compute. reflexivity.
Defined.

Lemma catch_push i message tr d scope scope' :
  catch (i + 1) message (push tr (plainStep (i + 1) d scope)) scope'
  = failsAt i message tr scope.
Proof. unfold catch, push, failsAt. rewrite pop_snoc. reflexivity. Qed.





(** C5. Operator precedence and left-associativity: in the empty scope
    [3 + 4 * 2] evaluates to the number 11 and [10 - 3 - 2] to the number 5. *)
Theorem precedence_and_associativity :
  evaluateExpression "3 + 4 * 2" ∅ = (∅, Normal (VNum (JS.ofZ 11))) /\
  evaluateExpression "10 - 3 - 2" ∅ = (∅, Normal (VNum (JS.ofZ 5))).
Proof. split; vm_compute; reflexivity. Qed.

(** C6, as stated, fails: no call on the counter program returns a trace of
    7 steps. *)
Lemma count_trace_not_seven :
  ~ (exists fuel r,
       getExecutionTrace fuel countProgram ∅ 0 None = Some r /\
       length (trace r) = 7).
Proof.
  intros (fuel & r & H & Hlen).
  destruct (getExecutionTrace 6 countProgram ∅ 0 None) as [r6 |] eqn:H6;
    [| vm_compute in H6; discriminate].
  rewrite (getExecutionTrace_deterministic _ _ _ _ _ _ _ _ H H6) in Hlen.
  vm_compute in H6. injection H6 as <-. discriminate.
Qed.

(** C6, amended. Loop fidelity: the call from line 0 with the empty scope on
    the counter program returns without an error a trace of 8 steps: the
    assignment step of [count = 0], one loop-start step, and three times an
    iteration-start step followed by an assignment step; the snapshot of the
    last step maps [count] to 3 and [i] to 2. *)
Theorem count_trace_eight_steps (fuel : nat) :
  exists r final,
    getExecutionTrace (6 + fuel) countProgram ∅ 0 None = Some r /\
    error r = None /\
    map (fun s => (lineNumber s, description s)) (trace r)
    = [ (1, VStr "Assign 0 to 'count'");
        (2, VStr "Starting a loop that will run 3 times.");
        (2, VStr "Loop iteration 1. Set 'i' to 0.");
        (3, VStr "Assign 1 to 'count'");
        (2, VStr "Loop iteration 2. Set 'i' to 1.");
        (3, VStr "Assign 2 to 'count'");
        (2, VStr "Loop iteration 3. Set 'i' to 2.");
        (3, VStr "Assign 3 to 'count'") ] /\
    last (trace r) = Some final /\
    variables final
    = <["count" := VNum (JS.ofZ 3)]> (<["i" := VNum (JS.ofZ 2)]> ∅).
Proof.
  eexists _, _. split.
  - apply getExecutionTrace_extra. vm_compute. reflexivity.
  - split; [reflexivity |]. split; [reflexivity |]. split; [reflexivity |].
    vm_compute. reflexivity.
Qed.

(** C7, at the failing input. A division by zero on line 2, in the body of
    the loop of line 1: the terminal error step of the returned trace carries
    line number 1, the line of the loop header, not the line of the failing
    statement. *)
Theorem loop_body_error_line (fuel : nat) :
  exists r e,
    getExecutionTrace (3 + fuel) divisionLoopProgram ∅ 0 None = Some r /\
    JS.split JS.newline divisionLoopProgram !! 1 = Some "  x = 1 / 0" /\
    last (trace r) = Some e /\
    isError e = true /\
    description e = VStr "ZeroDivisionError: division by zero" /\
    lineNumber e = 1.
Proof.
  eexists _, _. split.
  - apply getExecutionTrace_extra. vm_compute. reflexivity.
  - repeat split.
Qed.

(** What does hold of the line numbers: every step of a returned trace
    carries the number of a line of the source that is a statement. *)
Lemma steps_on_lines fuel code initialScope startLine providedInput r :
  getExecutionTrace fuel code initialScope startLine providedInput = Some r ->
  Forall (onLine (JS.split JS.newline code)) (trace r).
Proof. intros H. apply getExecutionTrace_inv in H as [H _]. exact H. Qed.




(** C9. Evaluator purity: whether the call returns a value or fails, the
    scope it hands back is the scope it received. *)
Theorem evaluateExpression_pure (expr : string) (scope : Scope) :
  fst (evaluateExpression expr scope) = scope.
Proof. apply evaluate_scope. Qed.

(** C10, as stated, fails: the text 1e-5 reads as a number, yet a minus sign
    before it does not evaluate to its negation: the scan splits the text at
    the sign of the exponent and the call fails. *)
Lemma signed_exponent_not_negated :
  JS.isNaN (JS.Number "1e-5") = false /\
  JS.numberToString (JS.Number "1e-5") = "0.00001" /\
  snd (evaluateExpression "-1e-5" ∅) = Throw "NameError: name '1e' is not defined".
Proof. repeat split. Qed.

Lemma bind_normal {A B : Type} (m : Eval A) (f : A -> Eval B) scope scope' a :
  m scope = (scope', Normal a) -> bind m f scope = f a scope'.
Proof. intros H. unfold bind. rewrite H. reflexivity. Qed.

(** C10, amended. The empty operand evaluates to zero: for every text [n] of
    literal characters (no sign, operator, quote or white space) that reads
    as a number, [-n] evaluates to zero minus that number, which equals its
    negation; and the statement [print()] succeeds and records the output 0. *)
Theorem negated_literal (n : string) (scope : Scope) (fuel : nat) :
  allChars literalChar n = true ->
  JS.isNaN (JS.Number n) = false ->
  evaluateExpression EmptyString scope = (scope, Normal (VNum JS.zero)) /\
  evaluateExpression (String "-" n) scope
  = (scope, Normal (VNum (JS.sub JS.zero (JS.Number n)))) /\
  JS.eqb (JS.sub JS.zero (JS.Number n)) (SFopp (JS.Number n)) = true /\
  getExecutionTrace (2 + fuel) "print()" scope 0 None
  = Some {| trace := [ {| lineNumber := 1;
                          description := VStr "Printing output";
                          variables := scope; output := Some "0";
                          isError := false; requiresInput := false;
                          inputVariable := None |} ];
            error := None |}.
Proof.
  intros Hn Hnum. split; [reflexivity |]. split; [| split].
  - unfold evaluateExpression. cbn [evaluate String.length].
    assert (Htrim : JS.trim (String "-" n) = String "-" n).
    { unfold JS.trim. simpl JS.trimStart.
      change (JS.trimEnd (String "-" n))
        with (match JS.trimEnd n with
              | EmptyString => String "-" EmptyString
              | t => String "-" t
              end).
      rewrite (trimEnd_literal _ Hn). destruct n; reflexivity. }
    rewrite Htrim.
    change (String.length (String "-" n)) with (S (String.length n)).
    rewrite (scan_minus n Hn (String.length n)) by lia.
    change (JS.substringTo (String "-" n) 0) with EmptyString.
    replace (JS.substringFrom (String "-" n) (0 + 1)) with n
      by (unfold JS.substringFrom; simpl; rewrite Nat.sub_0_r, substring_all;
          reflexivity).
    rewrite (bind_normal _ _ scope scope (VNum JS.zero)) by reflexivity.
    rewrite (bind_normal _ _ scope scope (VNum (JS.Number n)))
      by (apply evaluate_literal; assumption).
    reflexivity.
  - apply sub_zero_opp, Hnum.
  - apply getExecutionTrace_extra. reflexivity.
Qed.

Lemma negated_literal_witness :
  allChars literalChar "5" = true /\
  JS.isNaN (JS.Number "5") = false /\
  evaluateExpression (String "-" "5") ∅
  = (∅, Normal (VNum (JS.sub JS.zero (JS.Number "5")))).
Proof.
  split; [reflexivity |]. split; [reflexivity |].
  apply (negated_literal "5" ∅ 0); reflexivity.
Defined.

(** ** Further properties of the code *)

(** ** Texts: appending, trimming and scanning *)

Section Texts.

Local Arguments String.append : simpl nomatch.

Lemma allChars_app p a b :
  allChars p (a +:+ b) = allChars p a && allChars p b.
Proof.
  induction a as [| c a IH]; simpl; [reflexivity |].
  rewrite IH, andb_assoc. reflexivity.
Qed.

Lemma length_app a b :
  String.length (a +:+ b) = String.length a + String.length b.
Proof. induction a as [| c a IH]; simpl; [| rewrite IH]; reflexivity. Qed.

Lemma get_app_right a b n :
  String.get (String.length a + n) (a +:+ b) = String.get n b.
Proof. induction a as [| c a IH]; simpl; [reflexivity | exact IH]. Qed.

Lemma get_app_left a b : forall n,
  n < String.length a -> String.get n (a +:+ b) = String.get n a.
Proof.
  induction a as [| c a IH]; simpl; [lia |].
  intros [| n] H; [reflexivity | apply IH; lia].
Qed.

Lemma substring_app_left a b :
  String.substring 0 (String.length a) (a +:+ b) = a.
Proof. induction a as [| c a IH]; simpl; [destruct b | rewrite IH]; reflexivity. Qed.

Lemma substring_app_right a b n m :
  String.substring (String.length a + n) m (a +:+ b) = String.substring n m b.
Proof. induction a as [| c a IH]; simpl; [reflexivity | exact IH]. Qed.

Lemma substring_whole s : String.substring 0 (String.length s) s = s.
Proof. induction s as [| c s IH]; simpl; [| rewrite IH]; reflexivity. Qed.

Lemma substringFrom_app a c b :
  JS.substringFrom (a +:+ String c b) (String.length a + 1) = b.
Proof.
  unfold JS.substringFrom. induction a as [| d a IH]; simpl.
  - rewrite Nat.sub_0_r. apply substring_whole.
  - exact IH.
Qed.

Lemma app_assoc_string a b c : (a +:+ b) +:+ c = a +:+ (b +:+ c).
Proof. induction a as [| d a IH]; simpl; [| rewrite IH]; reflexivity. Qed.

Lemma app_empty_r s : s +:+ EmptyString = s.
Proof. induction s as [| c s IH]; simpl; [| rewrite IH]; reflexivity. Qed.

(** Trimming around a character that is not white space. *)
Lemma trimStart_app a c b :
  JS.isWhiteSpace c = false ->
  JS.trimStart (a +:+ String c b) = JS.trimStart a +:+ String c b.
Proof.
  intros Hc. induction a as [| d a IH]; simpl; [rewrite Hc; reflexivity |].
  destruct (JS.isWhiteSpace d); [exact IH | reflexivity].
Qed.

Lemma trimEnd_app a c b :
  JS.isWhiteSpace c = false ->
  JS.trimEnd (a +:+ String c b) = a +:+ String c (JS.trimEnd b).
Proof.
  intros Hc. induction a as [| d a IH]; simpl.
  - destruct (JS.trimEnd b); [rewrite Hc |]; reflexivity.
  - rewrite IH. destruct a; reflexivity.
Qed.

Lemma allChars_trimStart p s :
  allChars p s = true -> allChars p (JS.trimStart s) = true.
Proof.
  induction s as [| c s IH]; simpl; [reflexivity |].
  intros H. destruct (JS.isWhiteSpace c); [| exact H].
  apply andb_true_iff in H as [_ H]. apply IH, H.
Qed.

Lemma allChars_trimEnd p s :
  allChars p s = true -> allChars p (JS.trimEnd s) = true.
Proof.
  induction s as [| c s IH]; simpl; [reflexivity |].
  intros H. apply andb_true_iff in H as [Hc H]. specialize (IH H).
  destruct (JS.trimEnd s).
  - destruct (JS.isWhiteSpace c); simpl; [reflexivity | rewrite Hc; reflexivity].
  - simpl in *. rewrite Hc. exact IH.
Qed.

Lemma trimStart_idem s : JS.trimStart (JS.trimStart s) = JS.trimStart s.
Proof.
  induction s as [| c s IH]; simpl; [reflexivity |].
  destruct (JS.isWhiteSpace c) eqn:E; [exact IH | simpl; rewrite E; reflexivity].
Qed.

Lemma trimEnd_idem s : JS.trimEnd (JS.trimEnd s) = JS.trimEnd s.
Proof.
  induction s as [| c s IH]; simpl; [reflexivity |].
  destruct (JS.trimEnd s) as [| d t] eqn:E.
  - destruct (JS.isWhiteSpace c) eqn:Ec; simpl; [| rewrite Ec]; reflexivity.
  - simpl in *. rewrite IH. reflexivity.
Qed.

Lemma trim_commute s : JS.trimStart (JS.trimEnd s) = JS.trimEnd (JS.trimStart s).
Proof.
  induction s as [| c s IH]; simpl; [reflexivity |].
  destruct (JS.isWhiteSpace c) eqn:Ec.
  - destruct (JS.trimEnd s) as [| d t] eqn:E.
    + simpl. rewrite <- IH. reflexivity.
    + simpl JS.trimStart at 1. rewrite Ec. rewrite <- IH. reflexivity.
  - simpl JS.trimEnd at 2.
    destruct (JS.trimEnd s); [rewrite Ec |]; simpl; rewrite Ec; reflexivity.
Qed.

Lemma trim_trimStart s : JS.trim (JS.trimStart s) = JS.trim s.
Proof. unfold JS.trim. rewrite trimStart_idem. reflexivity. Qed.

Lemma trim_trimEnd s : JS.trim (JS.trimEnd s) = JS.trim s.
Proof. unfold JS.trim. rewrite trim_commute, trimEnd_idem. reflexivity. Qed.

Lemma trim_idem s : JS.trim (JS.trim s) = JS.trim s.
Proof. unfold JS.trim at 2. rewrite trim_trimEnd, trim_trimStart. reflexivity. Qed.

(** The evaluator reads its text through [trim] only. *)
Lemma evaluate_trim fuel x y scope :
  JS.trim x = JS.trim y -> evaluate fuel x scope = evaluate fuel y scope.
Proof. intros H. destruct fuel; [reflexivity |]. cbn [evaluate]. rewrite H. reflexivity. Qed.

Lemma evaluateExpression_trim_fuel fuel x y scope :
  JS.trim x = JS.trim y -> String.length x < fuel ->
  evaluate fuel x scope = evaluateExpression y scope.
Proof.
  intros H Hx. unfold evaluateExpression.
  rewrite (evaluate_fuel fuel (S (String.length x + String.length y)) x scope)
    by lia.
  rewrite (evaluate_fuel (S (String.length y)) (S (String.length x + String.length y))
             y scope) by lia.
  apply evaluate_trim, H.
Qed.

(** The scan passes over characters that are neither operators of its level
    nor quotes. *)
Lemma scan_skip isOp s :
  allChars (fun c => negb (isOp c) && negb (isQuote c)) s = true ->
  forall n, n <= String.length s -> scan isOp s n false = None.
Proof.
  intros Hs. induction n as [| n IH]; intros Hn; simpl; [reflexivity |].
  destruct (get_in_range s n ltac:(lia)) as [c Hc]. rewrite Hc.
  pose proof (allChars_get _ _ Hs _ _ Hc) as Hl. simpl in Hl.
  apply andb_true_iff in Hl as [Ho Hq].
  apply negb_true_iff in Ho, Hq. rewrite Hq, Ho. simpl. apply IH. lia.
Qed.

(** The scan stops at the last operator of its level. *)
Lemma scan_found isOp a op b :
  isOp op = true -> isQuote op = false ->
  allChars (fun c => negb (isOp c) && negb (isQuote c)) b = true ->
  forall n, n <= String.length b ->
    scan isOp (a +:+ String op b) (String.length a + 1 + n) false
    = Some (String.length a, op).
Proof.
  intros Hop Hq Hb. induction n as [| n IH]; intros Hn.
  - replace (String.length a + 1 + 0) with (S (String.length a)) by lia.
    cbn [scan].
    replace (String.length a) with (String.length a + 0) at 1 by lia.
    rewrite get_app_right. simpl. rewrite Hq, Hop. reflexivity.
  - replace (String.length a + 1 + S n) with (S (String.length a + 1 + n)) by lia.
    cbn [scan].
    replace (String.length a + 1 + n) with (String.length a + S n) at 1 by lia.
    rewrite get_app_right. simpl String.get.
    destruct (get_in_range b n ltac:(lia)) as [c Hc]. rewrite Hc.
    pose proof (allChars_get _ _ Hb _ _ Hc) as Hl. simpl in Hl.
    apply andb_true_iff in Hl as [Ho Hqc].
    apply negb_true_iff in Ho, Hqc. rewrite Hqc, Ho. simpl. apply IH. lia.
Qed.

End Texts.

(** ** Further properties of the evaluator *)

Section EvaluatorProperties.

Local Arguments String.append : simpl nomatch.

Lemma operandChar_facts c :
  operandChar c = true ->
  isAddOp c = false /\ isMulOp c = false /\ isQuote c = false.
Proof.
  unfold operandChar. intros H. apply negb_true_iff in H.
  apply orb_false_iff in H as [H Hq].
  apply orb_false_iff in H as [Ha Hm]. auto.
Qed.

Lemma operand_level (isOp : ascii -> bool) s :
  (forall c, operandChar c = true -> isOp c = false) ->
  allChars operandChar s = true ->
  allChars (fun c => negb (isOp c) && negb (isQuote c)) s = true.
Proof.
  intros Hop. apply allChars_impl. intros c Hc.
  rewrite (Hop c Hc). destruct (operandChar_facts c Hc) as (_ & _ & ->).
  reflexivity.
Qed.

Lemma operator_facts op :
  isAddOp op || isMulOp op = true ->
  JS.isWhiteSpace op = false /\ isQuote op = false /\
  (isAddOp op = false -> isMulOp op = true).
Proof.
  destruct op as [[] [] [] [] [] [] [] []]; vm_compute; auto; discriminate.
Qed.

Lemma bind_result {A B : Type} (m : Eval A) (f : A -> Eval B) scope c :
  m scope = (scope, c) ->
  bind m f scope = match c with
                   | Normal a => f a scope
                   | Throw message => (scope, Throw message)
                   end.
Proof. intros H. unfold bind. rewrite H. reflexivity. Qed.

(** X3. An operator between two operands: for texts [a] and [b] without
    operators and quotes (names and numbers, with any white space) and an
    operator [op] among [+ - * /], the text [a op b] evaluates [a], then [b],
    and combines the two values: the sum, difference, product or quotient of
    two numbers, a ZeroDivisionError when the divisor is zero, a TypeError
    when an operand is a string; a failure of [a] is raised before [b] is
    looked at. *)
Theorem binary_operation (a b : string) (op : ascii) (scope : Scope) :
  allChars operandChar a = true ->
  allChars operandChar b = true ->
  isAddOp op || isMulOp op = true ->
  evaluateExpression (a +:+ String op b) scope
  = (scope, thenCombine op (snd (evaluateExpression a scope))
                           (snd (evaluateExpression b scope))).
Proof.
  intros Ha Hb Hop.
  destruct (operator_facts op Hop) as (Hws & Hq & Hmul).
  set (a' := JS.trimStart a). set (b' := JS.trimEnd b).
  assert (Ha' : allChars operandChar a' = true) by apply allChars_trimStart, Ha.
  assert (Hb' : allChars operandChar b' = true) by apply allChars_trimEnd, Hb.
  assert (Htrim : JS.trim (a +:+ String op b) = a' +:+ String op b').
  { unfold JS.trim. rewrite trimStart_app, trimEnd_app by exact Hws. reflexivity. }
  assert (Hlen : String.length (a' +:+ String op b')
                 = String.length a' + 1 + String.length b')
    by (rewrite length_app; simpl; lia).
  assert (Hla : String.length a' <= String.length a) by apply trimStart_length.
  assert (Hlb : String.length b' <= String.length b) by apply trimEnd_length.
  assert (Hfuel : String.length (a +:+ String op b)
                  = String.length a + 1 + String.length b)
    by (rewrite length_app; simpl; lia).
  assert (Hleft : JS.substringTo (a' +:+ String op b') (String.length a') = a')
    by apply substring_app_left.
  assert (Hright : JS.substringFrom (a' +:+ String op b') (String.length a' + 1) = b')
    by apply substringFrom_app.
  assert (Hea : evaluate (String.length (a +:+ String op b)) a' scope
                = evaluateExpression a scope)
    by (apply evaluateExpression_trim_fuel; [apply trim_trimStart | lia]).
  assert (Heb : evaluate (String.length (a +:+ String op b)) b' scope
                = evaluateExpression b scope)
    by (apply evaluateExpression_trim_fuel; [apply trim_trimEnd | lia]).
  destruct (evaluateExpression_scope a scope) as [ca Hca].
  destruct (evaluateExpression_scope b scope) as [cb Hcb].
  rewrite Hca in Hea. rewrite Hcb in Heb. rewrite Hca, Hcb. simpl snd.
  unfold evaluateExpression. cbn [evaluate]. rewrite Htrim, Hlen.
  destruct (isAddOp op) eqn:Hadd.
  - rewrite (scan_found isAddOp a' op b' Hadd Hq) by
      (auto; apply operand_level; auto; intros c Hc; apply (operandChar_facts c Hc)).
    rewrite Hleft, Hright.
    rewrite (bind_result _ _ _ _ Hea). destruct ca as [l |]; [| reflexivity].
    rewrite (bind_result _ _ _ _ Heb). destruct cb as [r |]; [| reflexivity].
    simpl. unfold combine. rewrite Hadd. destruct l, r; reflexivity.
  - specialize (Hmul eq_refl).
    rewrite (scan_skip isAddOp) by
      (rewrite ?Hlen; auto; rewrite allChars_app; simpl; rewrite Hadd, Hq; simpl;
       rewrite !(operand_level isAddOp) by
         (auto; intros c Hc; apply (operandChar_facts c Hc)); reflexivity).
    rewrite (scan_found isMulOp a' op b' Hmul Hq) by
      (auto; apply operand_level; auto; intros c Hc; apply (operandChar_facts c Hc)).
    rewrite Hleft, Hright.
    rewrite (bind_result _ _ _ _ Hea). destruct ca as [l |]; [| reflexivity].
    rewrite (bind_result _ _ _ _ Heb). destruct cb as [r |]; [| reflexivity].
    simpl. unfold combine. rewrite Hadd.
    destruct l, r; try reflexivity.
    destruct (Ascii.eqb op "/"); [destruct (JS.eqb _ _) |]; reflexivity.
Qed.

Lemma binary_operation_witness :
  allChars operandChar "total " = true /\
  allChars operandChar " 0" = true /\
  evaluateExpression "total / 0" {[ "total" := VNum (JS.ofZ 6) ]}
  = ({[ "total" := VNum (JS.ofZ 6) ]}, Throw "ZeroDivisionError: division by zero").
Proof.
  split; [reflexivity |]. split; [reflexivity |].
  exact (binary_operation "total " " 0" "/" {[ "total" := VNum (JS.ofZ 6) ]}
           eq_refl eq_refl eq_refl).
Defined.

End EvaluatorProperties.

Section EvaluatorTerminals.

Local Arguments String.append : simpl nomatch.

Lemma quote_facts q :
  isQuote q = true ->
  JS.isWhiteSpace q = false /\ isAddOp q = false /\ isMulOp q = false /\
  (q = JS.dquote \/ q = JS.squote).
Proof.
  destruct q as [[] [] [] [] [] [] [] []]; vm_compute; auto; discriminate.
Qed.

Lemma endsWith_app s q c : JS.endsWith (s +:+ String q EmptyString) c = Ascii.eqb q c.
Proof.
  induction s as [| d s IH]; simpl; [reflexivity |].
  rewrite IH. destruct s; reflexivity.
Qed.

(** Inside quotes the scan passes over everything up to the opening quote. *)
Lemma scan_inside isOp q s :
  isQuote q = true -> isOp q = false ->
  allChars (fun c => negb (isQuote c)) s = true ->
  forall n, n <= String.length s ->
    scan isOp (String q (s +:+ String q EmptyString)) (S n) true = None.
Proof.
  intros Hq Hop Hs. induction n as [| n IH]; intros Hn.
  - simpl. rewrite Hq, Hop. reflexivity.
  - cbn [scan]. simpl String.get. rewrite get_app_left by lia.
    destruct (get_in_range s n ltac:(lia)) as [c Hc]. rewrite Hc.
    pose proof (allChars_get _ _ Hs _ _ Hc) as Hl. simpl in Hl.
    apply negb_true_iff in Hl. rewrite Hl. simpl. apply IH. lia.
Qed.

Lemma scan_quoted isOp q s :
  isQuote q = true -> isOp q = false ->
  allChars (fun c => negb (isQuote c)) s = true ->
  scan isOp (String q (s +:+ String q EmptyString))
    (String.length (String q (s +:+ String q EmptyString))) false = None.
Proof.
  intros Hq Hop Hs. simpl String.length. rewrite length_app. simpl String.length.
  replace (S (String.length s + 1)) with (S (S (String.length s))) by lia.
  cbn [scan]. simpl String.get.
  replace (String.length s) with (String.length s + 0) at 1 by lia.
  rewrite get_app_right. simpl. rewrite Hq. simpl.
  apply scan_inside; auto.
Qed.

(** X1. A quoted text: between two double quotes or two single quotes, a
    text that holds no quote evaluates to itself, whatever operators and
    white space it holds, in every scope. *)
Theorem string_literal_value (q : ascii) (s : string) (scope : Scope) :
  isQuote q = true ->
  allChars (fun c => negb (isQuote c)) s = true ->
  evaluateExpression (String q (s +:+ String q EmptyString)) scope
  = (scope, Normal (VStr s)).
Proof.
  intros Hq Hs. destruct (quote_facts q Hq) as (Hws & Ha & Hm & Hcase).
  set (e := String q (s +:+ String q EmptyString)).
  assert (Htrim : JS.trim e = e).
  { unfold JS.trim, e. simpl JS.trimStart. rewrite Hws.
    change (String q (s +:+ String q EmptyString))
      with (String q s +:+ String q EmptyString).
    rewrite trimEnd_app by exact Hws. reflexivity. }
  assert (Hslice : JS.slice1m1 e = s).
  { unfold JS.slice1m1, e. simpl String.length. rewrite length_app. simpl.
    replace (String.length s + 1 - 1) with (String.length s) by lia.
    apply substring_app_left. }
  assert (Hends : forall c, JS.endsWith e c = Ascii.eqb q c).
  { intros c. unfold e.
    change (String q (s +:+ String q EmptyString))
      with (String q s +:+ String q EmptyString).
    apply endsWith_app. }
  assert (Hadd : scan isAddOp e (String.length e) false = None)
    by (apply scan_quoted; assumption).
  assert (Hmul : scan isMulOp e (String.length e) false = None)
    by (apply scan_quoted; assumption).
  assert (Hstart : forall c, JS.startsWith e c = Ascii.eqb q c) by reflexivity.
  unfold evaluateExpression. cbn [evaluate]. rewrite !Htrim.
  rewrite Hadd, Hmul, Hslice, !Hends, !Hstart.
  destruct Hcase as [-> | ->]; reflexivity.
Qed.

Lemma string_literal_value_witness :
  isQuote JS.dquote = true /\
  allChars (fun c => negb (isQuote c)) "1 + 2 * 3" = true /\
  evaluateExpression (quoted "1 + 2 * 3") ∅ = (∅, Normal (VStr "1 + 2 * 3")).
Proof.
  split; [reflexivity |]. split; [reflexivity |].
  exact (string_literal_value JS.dquote "1 + 2 * 3" ∅ eq_refl eq_refl).
Defined.

Lemma wordChar_literal c : JS.isWordChar c = true -> literalChar c = true.
Proof.
  destruct c as [[] [] [] [] [] [] [] []]; vm_compute; auto.
Qed.

Lemma wordChar_not_paren c : JS.isWordChar c = true -> Ascii.eqb c "(" = false.
Proof.
  destruct c as [[] [] [] [] [] [] [] []]; vm_compute; auto; discriminate.
Qed.

(** A word is not a call of [input]. *)
Lemma inputCall_word s :
  allChars JS.isWordChar s = true -> JS.exec inputCallPattern s = None.
Proof.
  intros H. unfold inputCallPattern.
  destruct s as [| c1 [| c2 [| c3 [| c4 [| c5 [| c6 s]]]]]];
    cbn [JS.exec JS.lits app JS.atomMatches]; try reflexivity;
    try (repeat (destruct (Ascii.eqb _ _); try reflexivity); fail).
  simpl in H. repeat (apply andb_true_iff in H as [? H]).
  rewrite (wordChar_not_paren c6) by assumption.
  repeat (destruct (Ascii.eqb _ _); try reflexivity).
Qed.

(** X2. A name: a word that does not read as a number evaluates to the value
    the scope binds it to; when the scope does not bind it, and it is not
    one of the names every object inherits from [Object.prototype], the
    evaluation fails with a NameError that quotes the name. *)
Theorem variable_lookup (name : string) (scope : Scope) :
  isWord name = true ->
  JS.isNaN (JS.Number name) = true ->
  (scope !! name = None -> inheritedName name = false) ->
  evaluateExpression name scope
  = (scope,
     match scope !! name with
     | Some value => Normal value
     | None => Throw ("NameError: name '" +:+ name +:+ "' is not defined")
     end).
Proof.
  intros Hw Hnan _. unfold isWord in Hw. apply andb_true_iff in Hw as [_ Hw].
  assert (Hl : allChars literalChar name = true)
    by (eapply allChars_impl; [apply wordChar_literal | exact Hw]).
  unfold evaluateExpression. cbn [evaluate]. rewrite !(trim_literal _ Hl).
  rewrite (scan_literal isAddOp name) by
    (auto; intros c Hc; apply (literalChar_facts _ Hc)).
  rewrite (scan_literal isMulOp name) by
    (auto; intros c Hc; apply (literalChar_facts _ Hc)).
  rewrite (quote_free name JS.dquote Hl eq_refl), (quote_free name JS.squote Hl eq_refl).
  cbn [andb orb]. rewrite Hnan. cbn [negb]. unfold bind, readProperty.
  destruct (scope !! name); [reflexivity |].
  rewrite (inputCall_word _ Hw). reflexivity.
Qed.

Lemma variable_lookup_witness :
  isWord "total" = true /\ JS.isNaN (JS.Number "total") = true /\
  evaluateExpression "total" ∅
  = (∅, Throw "NameError: name 'total' is not defined").
Proof.
  split; [reflexivity |]. split; [reflexivity |].
  exact (variable_lookup "total" ∅ eq_refl eq_refl (fun _ => eq_refl)).
Defined.

Lemma evaluate_errors :
  forall fuel expr scope message,
    String.length expr < fuel ->
    snd (evaluate fuel expr scope) = Throw message ->
    evaluatorError message = true.
Proof.
  induction fuel as [| fuel IH]; intros expr scope message Hlen; [lia |].
  cbn [evaluate].
  pose proof (trim_length expr) as Ht.
  assert (Hsub : forall isOp i c,
    scan isOp (JS.trim expr) (String.length (JS.trim expr)) false = Some (i, c) ->
    String.length (JS.substringTo (JS.trim expr) i) < fuel /\
    String.length (JS.substringFrom (JS.trim expr) (i + 1)) < fuel).
  { intros isOp i c Hs. apply scan_bound in Hs.
    pose proof (substring_length (JS.trim expr) 0 i).
    pose proof (substring_length (JS.trim expr) (i + 1)
                  (String.length (JS.trim expr) - (i + 1))).
    unfold JS.substringTo, JS.substringFrom. lia. }
  destruct (scan isAddOp _ _ _) as [[i char] |] eqn:Ha.
  { destruct (Hsub _ _ _ Ha) as [Hl Hr]. revert message.
    apply bind_throw; [intros m; apply IH, Hl |]. intros l scope1.
    apply bind_throw; [intros m; apply IH, Hr |]. intros r scope2 message.
    destruct l, r; intros [= <-]; reflexivity. }
  destruct (scan isMulOp _ _ _) as [[i char] |] eqn:Hm.
  { destruct (Hsub _ _ _ Hm) as [Hl Hr]. revert message.
    apply bind_throw; [intros m; apply IH, Hl |]. intros l scope1.
    apply bind_throw; [intros m; apply IH, Hr |]. intros r scope2 message.
    destruct l, r; try (intros [= <-]; reflexivity).
    destruct (Ascii.eqb char "/"); [| discriminate].
    destruct (JS.eqb _ _); [intros [= <-]; reflexivity | discriminate]. }
  destruct (_ || _); [discriminate |].
  destruct (negb _); [discriminate |].
  revert message. apply bind_throw; [discriminate |].
  intros [v |] scope1 message; [discriminate |].
  destruct (JS.exec _ _) as [[| group [| ? ?]] |] eqn:He;
    try (intros [= <-]; reflexivity).
  destruct (negb _); [| discriminate].
  apply inputCall_group in He. pose proof (trim_length (JS.trim expr)).
  apply IH. lia.
Qed.

Lemma evaluate_errors_depth :
  forall fuel expr scope message,
    snd (evaluate fuel expr scope) = Throw message ->
    evaluatorError message = true \/ message = stackOverflow.
Proof.
  induction fuel as [| fuel IH]; intros expr scope message.
  { intros [= <-]. right. reflexivity. }
  cbn [evaluate].
  destruct (scan isAddOp _ _ _) as [[i char] |] eqn:Ha.
  { revert message.
    apply bind_throw; [intros m; apply IH |]. intros l scope1.
    apply bind_throw; [intros m; apply IH |]. intros r scope2 message.
    destruct l, r; intros [= <-]; left; reflexivity. }
  destruct (scan isMulOp _ _ _) as [[i char] |] eqn:Hm.
  { revert message.
    apply bind_throw; [intros m; apply IH |]. intros l scope1.
    apply bind_throw; [intros m; apply IH |]. intros r scope2 message.
    destruct l, r; try (intros [= <-]; left; reflexivity).
    destruct (Ascii.eqb char "/"); [| discriminate].
    destruct (JS.eqb _ _); [intros [= <-]; left; reflexivity | discriminate]. }
  destruct (_ || _); [discriminate |].
  destruct (negb _); [discriminate |].
  revert message. apply bind_throw; [discriminate |].
  intros [v |] scope1 message; [discriminate |].
  destruct (JS.exec _ _) as [[| group [| ? ?]] |] eqn:He;
    try (intros [= <-]; left; reflexivity).
  destruct (negb _); [| discriminate].
  apply IH.
Qed.

(** X4. The errors of the evaluator: on a call stack with room for [depth]
    nested calls, every failure of the evaluation is a NameError, a
    TypeError, the ZeroDivisionError or the overflow of the stack; and it is
    not the overflow when [depth] is above the length of the text. *)
Theorem evaluator_errors (depth : nat) (expr : string) (scope : Scope)
    (message : string) :
  snd (evaluate depth expr scope) = Throw message ->
  (evaluatorError message = true \/ message = stackOverflow) /\
  (String.length expr < depth -> evaluatorError message = true).
Proof.
  intros H. split; [exact (evaluate_errors_depth _ _ _ _ H) |].
  intros Hlen. exact (evaluate_errors _ _ _ _ Hlen H).
Qed.

Lemma evaluator_errors_witness :
  snd (evaluate 1 "1 + x" ∅) = Throw stackOverflow /\
  (evaluatorError stackOverflow = true \/ stackOverflow = stackOverflow).
Proof.
  split; [reflexivity |].
  exact (proj1 (evaluator_errors 1 "1 + x" ∅ stackOverflow eq_refl)).
Defined.

(** X5. The recursion of the evaluator ends: every nested call is on a
    strictly shorter text, so any depth past the length of the text gives
    the result of [evaluateExpression]. *)
Theorem evaluate_terminates (fuel : nat) (expr : string) (scope : Scope) :
  String.length expr < fuel ->
  evaluate fuel expr scope = evaluateExpression expr scope.
Proof. intros H. apply evaluate_fuel; [exact H | lia]. Qed.

Lemma evaluate_terminates_witness :
  String.length "3 + 4 * 2" < 100 /\
  evaluate 100 "3 + 4 * 2" ∅ = evaluateExpression "3 + 4 * 2" ∅.
Proof.
  split; [vm_compute; lia |].
  apply (evaluate_terminates 100 "3 + 4 * 2" ∅). vm_compute. lia.
Defined.

End EvaluatorTerminals.

(** ** Number literals *)

(** X7. A number literal: a text that, trimmed, holds no operator, no quote
    and no white space, and reads as a number, evaluates to that number in
    every scope; no variable is looked up, whatever the scope binds. *)
Theorem number_literal_value (expr : string) (scope : Scope) :
  allChars literalChar (JS.trim expr) = true ->
  JS.isNaN (JS.Number (JS.trim expr)) = false ->
  evaluateExpression expr scope
  = (scope, Normal (VNum (JS.Number (JS.trim expr)))).
Proof.
  intros Hs Hn.
  rewrite <- (evaluateExpression_trim_fuel (S (String.length (JS.trim expr)))
                (JS.trim expr) expr scope (trim_idem expr)) by lia.
  apply evaluate_literal; assumption.
Qed.

Lemma number_literal_value_witness :
  evaluateExpression " 0x1F " {[ "0x1F" := VStr "bound" ]}
  = ({[ "0x1F" := VStr "bound" ]}, Normal (VNum (JS.Number "0x1F"))).
Proof.
  exact (number_literal_value " 0x1F " {[ "0x1F" := VStr "bound" ]}
           eq_refl eq_refl).
Defined.

(** ** The body of a loop *)

Lemma collectBody_acc baseIndent :
  forall rest j acc,
    collectBody baseIndent rest j acc
    = (acc ++ fst (collectBody baseIndent rest j []),
       snd (collectBody baseIndent rest j [])).
Proof.
  induction rest as [| nextLine rest IH]; intros j acc; simpl.
  - rewrite app_nil_r. reflexivity.
  - destruct (JS.isEmpty _); [apply IH |].
    destruct (_ <? _); [| rewrite app_nil_r; reflexivity].
    rewrite IH, (IH (S j) [(nextLine, j)]). simpl.
    rewrite <- app_assoc. reflexivity.
Qed.

(** X22. The body of a loop: from the line after the header, the scan for
    the body stops at the first line that is not blank and is not indented
    deeper than the header, or at the end of the source. The body is the
    lines before that point that are not blank, in their order and with
    their indices; each of them is indented deeper than the header. Blank
    lines do not end the body and are not part of it. *)
Theorem loop_body_extent (baseIndent : nat) (rest : list string) (j : nat) :
  let loopBody := fst (collectBody baseIndent rest j []) in
  let stop := snd (collectBody baseIndent rest j []) in
  j <= stop <= j + length rest /\
  loopBody = List.filter (fun e => negb (blankLine (fst e)))
               (take (stop - j) (numbered rest j)) /\
  Forall (fun e => baseIndent < JS.leadingWhiteSpace (fst e)) loopBody /\
  (forall line, rest !! (stop - j) = Some line ->
     blankLine line = false /\ JS.leadingWhiteSpace line <= baseIndent).
Proof.
  revert j. induction rest as [| nextLine rest IH]; intros j; cbn zeta.
  - simpl. replace (j - j) with 0 by lia.
    split; [lia | split; [reflexivity | split; [constructor | discriminate]]].
  - specialize (IH (S j)). cbn zeta in IH.
    destruct IH as (Hstop & Hbody & Hdeep & Hend).
    cbn [collectBody]. fold (blankLine nextLine).
    destruct (blankLine nextLine) eqn:Hblank.
    + set (stop := snd (collectBody baseIndent rest (S j) [])) in *.
      replace (stop - j) with (S (stop - S j)) by lia.
      cbn [numbered take List.filter fst length lookup list_lookup].
      rewrite Hblank. cbn [negb].
      split; [lia | split; [exact Hbody | split; [exact Hdeep | exact Hend]]].
    + destruct (baseIndent <? JS.leadingWhiteSpace nextLine) eqn:Hdeeper.
      * rewrite collectBody_acc. cbn [fst snd].
        set (stop := snd (collectBody baseIndent rest (S j) [])) in *.
        replace (stop - j) with (S (stop - S j)) by lia.
        cbn [numbered take List.filter fst length lookup list_lookup].
        rewrite Hblank. cbn [negb app].
        split; [lia | split; [| split; [| exact Hend]]].
        -- f_equal. exact Hbody.
        -- constructor; [apply Nat.ltb_lt, Hdeeper | exact Hdeep].
      * cbn [fst snd]. replace (j - j) with 0 by lia.
        apply Nat.ltb_ge in Hdeeper. cbn [length].
        split; [lia | split; [reflexivity | split; [constructor |]]].
        intros line [= <-]. split; [exact Hblank | exact Hdeeper].
Qed.

(** ** Steps come after the start line *)

Lemma updateLast_Forall (P : ExecutionStep -> Prop) f tr :
  (forall s, P s -> P (f s)) -> Forall P tr -> Forall P (updateLast f tr).
Proof.
  intros Hf H. destruct tr as [| s tr _] using rev_ind; [constructor |].
  rewrite updateLast_snoc. apply Forall_app in H as [H Hs].
  apply Forall_app. split; [exact H |]. inversion Hs; subst.
  constructor; [apply Hf; assumption | constructor].
Qed.

Lemma pop_Forall (P : ExecutionStep -> Prop) tr :
  Forall P tr -> Forall P (snd (pop tr)).
Proof.
  intros H. destruct tr as [| s tr _] using rev_ind; [constructor |].
  rewrite pop_snoc. apply Forall_app in H as [H _]. exact H.
Qed.

Lemma push_Forall (P : ExecutionStep -> Prop) tr s :
  Forall P tr -> P s -> Forall P (push tr s).
Proof.
  intros H Hs. apply Forall_app. split; [exact H |]. constructor; [exact Hs | constructor].
Qed.

Lemma collectBody_after start baseIndent :
  forall rest j acc,
    start < j ->
    Forall (fun e => start < snd e + 1) acc ->
    Forall (fun e => start < snd e + 1) (fst (collectBody baseIndent rest j acc)).
Proof.
  induction rest as [| nextLine rest IH]; intros j acc Hj Hacc; simpl; [exact Hacc |].
  destruct (JS.isEmpty _); [apply IH; [lia | exact Hacc] |].
  destruct (_ <? _); [| exact Hacc].
  apply IH; [lia |]. apply Forall_app. split; [exact Hacc |].
  constructor; [simpl; lia | constructor].
Qed.

Section AfterStart.

Variable recurse : string -> Scope -> option ExecutorResponse.
Variable start : nat.

Local Abbreviation after := (afterLine start).

Lemma forEachStep_after loopBody :
  Forall (fun e => start < snd e + 1) loopBody ->
  forall steps tr scope,
    Forall after tr ->
    Forall after (outTrace (forEachStep loopBody steps tr scope)).
Proof.
  intros Hbody. induction steps as [| step steps IH]; intros tr scope Htr; simpl;
    [exact Htr |].
  destruct (lineNumber step) as [| n] eqn:Hn; [exact Htr |].
  destruct (loopBody !! n) as [[line index] |] eqn:He; [| exact Htr].
  apply IH. apply push_Forall; [exact Htr |].
  unfold afterLine. simpl. rewrite Forall_forall in Hbody.
  apply (Hbody (line, index)). apply list_elem_of_lookup. eauto.
Qed.

Lemma iterate_after loopLimit loopVar lineNumber loopBody :
  start < lineNumber ->
  Forall (fun e => start < snd e + 1) loopBody ->
  forall fuel k tr scope o,
    Forall after tr ->
    iterate recurse fuel k loopLimit loopVar lineNumber loopBody tr scope = Some o ->
    Forall after (outTrace o).
Proof.
  intros Hline Hbody. induction fuel as [| fuel IH]; intros k tr scope o Htr; simpl.
  { destruct (JS.ltb k loopLimit); [discriminate |]. intros [= <-]. exact Htr. }
  destruct (JS.ltb k loopLimit); [| intros [= <-]; exact Htr].
  destruct (recurse _ _) as [sub |]; [| discriminate].
  match goal with
  | |- context [forEachStep ?b ?st ?t ?s] =>
      pose proof (forEachStep_after b Hbody st t s) as Hfe;
      destruct (forEachStep b st t s) as [i' tr' scope' | r | m tr' scope']
  end.
  - assert (Htr' : Forall after tr')
      by (apply Hfe, push_Forall; [exact Htr | exact Hline]).
    destruct (error sub) as [message |]; [destruct (negb _) |]; try (apply IH; exact Htr').
    intros [= <-]. exact Htr'.
  - intros [= <-]. apply Hfe, push_Forall; [exact Htr | exact Hline].
  - intros [= <-]. apply Hfe, push_Forall; [exact Htr | exact Hline].
Qed.

Lemma execLine_after fuel lines i line tr scope o :
  start <= i ->
  Forall after tr ->
  execLine recurse fuel lines i line tr scope = Some o ->
  Forall after (outTrace o) /\
  (forall i' tr' scope', o = Continue i' tr' scope' -> i <= i').
Proof.
  intros Hi Htr. unfold execLine.
  destruct (_ || _).
  { intros [= <-]. split; [exact Htr |]. intros ? ? ? [= <- _ _]. lia. }
  assert (Hprov : forall d scope', Forall after
            (push tr (plainStep (i + 1) d scope')))
    by (intros; apply push_Forall; [exact Htr | unfold afterLine; simpl; lia]).
  assert (Hup : forall f d scope',
            (forall s, lineNumber (f s) = lineNumber s) ->
            Forall after (updateLast f (push tr (plainStep (i + 1) d scope')))).
  { intros f d scope' Hf. apply updateLast_Forall; [| apply Hprov].
    intros s. unfold afterLine. rewrite Hf. auto. }
  destruct (JS.exec inputPattern _) as [[| varName [| group [| ? ?]]] |].
  3: { destruct (negb (JS.isEmpty (JS.trim group)));
         [destruct (evaluateExpression _ _) as [scope1 [prompt | message]] |];
         intros [= <-]; (split; [| discriminate]); simpl;
         first [apply Hup; reflexivity | apply Hprov]. }
  all: destruct (JS.exec forLoopPattern _) as [[| loopVar [| loopLimitExpr [| ? ?]]] |].
  all: try match goal with
  | |- context [JS.exec assignmentPattern ?l] =>
      destruct (JS.exec assignmentPattern l) as [[| varName' [| valueExpr [| ? ?]]] |]
  end.
  all: try match goal with
  | |- context [JS.exec printPattern ?l] =>
      destruct (JS.exec printPattern l) as [[| group' [| ? ?]] |]
  end.
  all: try (intros [= <-]; split; [apply Hprov | discriminate]).
  all: try (destruct (negb (JS.isEmpty _));
            [| intros [= <-]; split; [apply Hprov | discriminate]]).
  all: try match goal with
  | |- context [evaluateExpression ?e ?s] =>
      destruct (evaluateExpression e s) as [scope1 [value | message]];
      [| intros [= <-]; split; [apply Hprov | discriminate]]
  end.
  (* print and assignment *)
  all: try (intros [= <-]; split; [| intros ? ? ? [= <- _ _]; lia]; simpl;
            repeat (apply updateLast_Forall; [intros ? Hs; exact Hs |]);
            apply Hprov).
  (* the loop *)
  all: destruct value as [loopLimit | text];
    [| intros [= <-]; split; [apply Hprov | discriminate]].
  all: pose proof (collectBody_after start (JS.leadingWhiteSpace line)
                     (drop (i + 1) lines) (i + 1) [] ltac:(lia) ltac:(constructor))
         as Hbody;
       pose proof (collectBody_from (JS.leadingWhiteSpace line)
                     (drop (i + 1) lines) (i + 1) []) as Hj;
       destruct (collectBody _ _ _ _) as [loopBody j]; simpl in Hbody, Hj.
  all: match goal with
  | |- context [iterate ?rec ?f ?k ?lim ?v ?n ?b ?t ?s] =>
      destruct (iterate rec f k lim v n b t s) as [o' |] eqn:Hit;
      [| discriminate];
      apply iterate_after in Hit;
      [ | lia | exact Hbody | apply Hup; reflexivity ]
  end.
  all: destruct o'; intros [= <-]; (split; [exact Hit |]);
    first [intros ? ? ? [= <- _ _]; lia | discriminate].
Qed.

Lemma run_after lines :
  forall fuel i tr scope r,
    start <= i ->
    Forall after tr ->
    run recurse fuel lines i tr scope = Some r ->
    Forall after (trace r).
Proof.
  induction fuel as [| fuel IH]; intros i tr scope r Hi Htr; simpl;
    destruct (lines !! i) as [line |] eqn:Hl.
  1: discriminate.
  1, 3: intros [= <-]; exact Htr.
  destruct (execLine recurse fuel lines i line tr scope) as [o |] eqn:Hex;
    [| discriminate].
  destruct (execLine_after _ _ _ _ _ _ _ Hi Htr Hex) as [Ho Hnext].
  destruct o as [i' tr' scope' | r' | message tr' scope']; simpl in Ho.
  - specialize (Hnext _ _ _ eq_refl). apply IH; [lia | exact Ho].
  - intros [= <-]. exact Ho.
  - intros [= <-]. unfold catch.
    pose proof (pop_Forall _ _ Ho) as Hpop.
    destruct (pop tr') as [lastStep rest]. simpl in *.
    apply push_Forall; [exact Hpop | unfold afterLine; simpl; lia].
Qed.

End AfterStart.

(** X8. Steps come after the start line: every step of a trace returned by
    a call from [startLine] carries a line number above [startLine]; no line
    before the start is run again. *)
Theorem steps_after_start fuel code initialScope startLine providedInput r :
  getExecutionTrace fuel code initialScope startLine providedInput = Some r ->
  Forall (fun s => startLine < lineNumber s) (trace r).
Proof.
  destruct fuel as [| fuel]; simpl; [discriminate |].
  apply run_after; [lia | constructor].
Qed.

Lemma steps_after_start_witness :
  exists r,
    getExecutionTrace 3 ageProgram ∅ 1 (Some ("age", "30")) = Some r /\
    Forall (fun s => 1 < lineNumber s) (trace r).
Proof.
  eexists. split; [vm_compute; reflexivity |].
  apply (steps_after_start 3 ageProgram ∅ 1 (Some ("age", "30"))).
  vm_compute. reflexivity.
Defined.

(** ** One change per step *)

Lemma oneChange_refl a : oneChange a a.
Proof. left. reflexivity. Qed.

Lemma oneChange_insert a name value : oneChange a (<[name := value]> a).
Proof. right. eauto. Qed.

Lemma oneChange_setProperty a name value : oneChange a (setProperty name value a).
Proof.
  unfold setProperty. destruct (a !! name); [apply oneChange_insert |].
  destruct (String.eqb name "__proto__");
    [apply oneChange_refl | apply oneChange_insert].
Qed.

Lemma chain_app scope0 tr1 tr2 :
  chain scope0 (tr1 ++ tr2)
  <-> chain scope0 tr1 /\ chain (scopeAfter scope0 tr1) tr2.
Proof.
  revert scope0. induction tr1 as [| s tr1 IH]; intros scope0; simpl.
  - unfold scopeAfter. simpl. tauto.
  - rewrite IH, scopeAfter_cons. tauto.
Qed.

Lemma chain_snoc scope0 tr s :
  chain scope0 tr -> oneChange (scopeAfter scope0 tr) (variables s) ->
  chain scope0 (tr ++ [s]).
Proof. intros H Hs. apply chain_app. simpl. auto. Qed.

Lemma chain_remap loopBody tr : forall scope0,
  chain scope0 tr -> chain scope0 (map (remap loopBody) tr).
Proof.
  induction tr as [| s tr IH]; intros scope0; simpl; [auto |].
  intros [Hs Htr]. split; [exact Hs | apply IH, Htr].
Qed.

Lemma chain_dom tr : forall scope0 i s,
  chain scope0 tr -> tr !! i = Some s -> dom scope0 ⊆ dom (variables s).
Proof.
  assert (Hone : forall a b : Scope, oneChange a b -> dom a ⊆ dom b).
  { intros a b [-> | (name & value & ->)]; [done |].
    rewrite dom_insert_L. set_solver. }
  induction tr as [| s0 tr IH]; intros scope0 i s; simpl; [discriminate |].
  intros [H0 Htr]. destruct i as [| i]; simpl.
  - intros [= <-]. apply Hone, H0.
  - intros Hi. specialize (IH _ _ _ Htr Hi). apply Hone in H0. set_solver.
Qed.

Lemma chain_drop tr : forall scope0 i s,
  chain scope0 tr -> tr !! i = Some s -> chain (variables s) (drop (S i) tr).
Proof.
  induction tr as [| s0 tr IH]; intros scope0 i s; simpl; [discriminate |].
  intros [H0 Htr]. destruct i as [| i]; simpl.
  - intros [= <-]. rewrite drop_0. exact Htr.
  - apply (IH (variables s0)). exact Htr.
Qed.

Section Chain.

Variable recurse : string -> Scope -> option ExecutorResponse.
Hypothesis recurse_inv : forall code scope r,
  recurse code scope = Some r -> respInv (JS.split JS.newline code) scope r.
Hypothesis recurse_chain : forall code scope r,
  recurse code scope = Some r -> chain scope (trace r).

Variable lines : list string.
Hypothesis lines_split : Forall (fun l => contains JS.newline l = false) lines.

Variable scope0 : Scope.

(** One iteration of a loop: what [forEachStep] returns and the state it
    leaves. *)
Lemma iteration_step loopVar n line loopBody k d tr scope sub :
  lines !! n = Some line -> isStatement line = true ->
  bodyOK lines loopBody ->
  stInv lines scope0 tr scope ->
  recurse (JS.join (String JS.newline EmptyString) (map fst loopBody))
    (setProperty loopVar (VNum k) scope) = Some sub ->
  let scope1 := setProperty loopVar (VNum k) scope in
  let tr1 := push tr (plainStep (S n) d scope1) in
  let tr2 := tr1 ++ map (remap loopBody) (trace sub) in
  forEachStep loopBody (trace sub) tr1 scope1
  = Continue 0 tr2 (scopeAfter scope1 (trace sub)) /\
  stInv lines scope0 tr1 scope1 /\
  (error sub = None -> stInv lines scope0 tr2 (scopeAfter scope1 (trace sub))) /\
  (forall message, error sub = Some message -> message <> EmptyString).
Proof.
  intros Hl Hst Hbody Hinv Hsub scope1 tr1 tr2.
  assert (Hinv1 : stInv lines scope0 tr1 scope1)
    by (eapply stInv_push; eauto).
  pose proof (recurse_inv _ _ _ Hsub) as (Hon & Herr).
  pose proof (body_steps _ _ _ lines_split Hbody Hon) as Hsteps.
  split; [| split; [exact Hinv1 | split]].
  - apply forEachStep_mapped.
    eapply Forall_impl; [exact Hsteps |]. intros s (m & e & ? & ? & _); eauto.
  - intros Hnone. rewrite Hnone in Herr.
    destruct Hinv1 as (Hon1 & Hne1 & Hsc1). split; [| split].
    + apply Forall_app. split; [exact Hon1 |]. eapply onLine_remap; eauto.
    + apply Forall_app. split; [exact Hne1 |]. apply noError_remap, Herr.
    + unfold tr2. rewrite scopeAfter_app, Hsc1, scopeAfter_remap. reflexivity.
  - intros message Hsome. rewrite Hsome in Herr. apply Herr.
Qed.

Lemma iterate_chain loopVar n line loopBody loopLimit :
  lines !! n = Some line -> isStatement line = true ->
  bodyOK lines loopBody ->
  forall fuel k tr scope o,
    stInv lines scope0 tr scope -> chain scope0 tr ->
    iterate recurse fuel k loopLimit loopVar (S n) loopBody tr scope = Some o ->
    chain scope0 (outTrace o).
Proof.
  intros Hl Hst Hbody.
  induction fuel as [| fuel IH]; intros k tr scope o Hinv Hch; simpl.
  { destruct (JS.ltb k loopLimit); [discriminate |]. intros [= <-]. exact Hch. }
  destruct (JS.ltb k loopLimit); [| intros [= <-]; exact Hch].
  destruct (recurse _ (setProperty loopVar (VNum k) scope)) as [sub |] eqn:Hsub;
    [| discriminate].
  match goal with
  | |- context [plainStep (S n) ?d _] =>
      destruct (iteration_step loopVar n line loopBody k d tr scope sub
                  Hl Hst Hbody Hinv Hsub) as (Hfe & Hinv1 & Hnext & Hmsg)
  end.
  rewrite Hfe.
  assert (Hch2 : chain scope0
            (push tr (plainStep (S n)
               (VStr ("Loop iteration " +:+ JS.numberToString (JS.add k JS.one)
                      +:+ ". Set '" +:+ loopVar +:+ "' to "
                      +:+ JS.numberToString k +:+ "."))
               (setProperty loopVar (VNum k) scope))
             ++ map (remap loopBody) (trace sub))).
  { apply chain_app. split.
    - apply chain_snoc; [exact Hch |]. destruct Hinv as (_ & _ & ->).
      apply oneChange_setProperty.
    - destruct Hinv1 as (_ & _ & ->). apply chain_remap.
      apply (recurse_chain _ _ _ Hsub). }
  destruct (error sub) as [message |].
  - specialize (Hmsg _ eq_refl). destruct message; [congruence |]. simpl.
    intros [= <-]. exact Hch2.
  - apply IH; [apply Hnext; reflexivity | exact Hch2].
Qed.

Lemma chain_updateLast tr scope n d f :
  stInv lines scope0 tr scope -> chain scope0 tr ->
  oneChange scope (variables (f (plainStep n d scope))) ->
  chain scope0 (updateLast f (push tr (plainStep n d scope))).
Proof.
  intros (_ & _ & Hsc) Hch Hone. unfold push. rewrite updateLast_snoc.
  apply chain_snoc; [exact Hch |]. rewrite Hsc. exact Hone.
Qed.

Lemma chain_push tr scope n d :
  stInv lines scope0 tr scope -> chain scope0 tr ->
  chain scope0 (push tr (plainStep n d scope)).
Proof.
  intros (_ & _ & Hsc) Hch. apply chain_snoc; [exact Hch |].
  rewrite Hsc. apply oneChange_refl.
Qed.

Lemma execLine_chain fuel i line tr scope o :
  lines !! i = Some line ->
  stInv lines scope0 tr scope -> chain scope0 tr ->
  execLine recurse fuel lines i line tr scope = Some o ->
  chain scope0 (outTrace o).
Proof.
  intros Hl Hinv Hch. unfold execLine.
  destruct (_ || _) eqn:Hst.
  { intros [= <-]. exact Hch. }
  assert (Hst' : isStatement line = true) by (unfold isStatement; rewrite Hst; reflexivity).
  replace (i + 1) with (S i) in * by lia.
  assert (Hprov : forall d, chain scope0 (push tr (plainStep (S i) d scope)))
    by (intros; apply chain_push; assumption).
  destruct (JS.exec inputPattern _) as [[| varName [| group [| ? ?]]] |].
  3: { destruct (negb (JS.isEmpty (JS.trim group)));
         [destruct (evaluateExpression_scope (JS.trim group) scope) as [c ->];
          destruct c as [prompt | message] |];
         intros [= <-]; simpl;
         first [apply chain_updateLast; [assumption .. | apply oneChange_refl]
               | apply Hprov]. }
  all: destruct (JS.exec forLoopPattern _) as [[| loopVar [| loopLimitExpr [| ? ?]]] |].
  all: try match goal with
  | |- context [JS.exec assignmentPattern ?l] =>
      destruct (JS.exec assignmentPattern l) as [[| varName' [| valueExpr [| ? ?]]] |]
  end.
  all: try match goal with
  | |- context [JS.exec printPattern ?l] =>
      destruct (JS.exec printPattern l) as [[| group' [| ? ?]] |]
  end.
  all: try (intros [= <-]; apply Hprov).
  all: try (destruct (negb (JS.isEmpty _)); [| intros [= <-]; apply Hprov]).
  all: try match goal with
  | |- context [evaluateExpression ?e ?sc] =>
      let c := fresh "c" in
      destruct (evaluateExpression_scope e sc) as [c ->];
      destruct c as [value | message]; [| intros [= <-]; apply Hprov]
  end.
  (* print and assignment *)
  all: try (intros [= <-]; simpl; unfold push; rewrite !updateLast_snoc;
            apply chain_snoc; [exact Hch |];
            destruct Hinv as (_ & _ & ->); simpl;
            first [apply oneChange_refl | apply oneChange_setProperty]).
  (* the loop *)
  all: destruct value as [loopLimit | text]; [| intros [= <-]; apply Hprov].
  all: pose proof (collectBody_drop lines (JS.leadingWhiteSpace line) i) as Hbody;
    replace (i + 1) with (S i) in Hbody by lia;
    destruct (collectBody _ _ _ _) as [loopBody j]; simpl in Hbody.
  all: match goal with
  | |- context [iterate ?rec ?f ?k ?lim ?v ?n ?b ?t ?s] =>
      destruct (iterate rec f k lim v n b t s) as [o' |] eqn:Hit;
      [| discriminate];
      eapply iterate_chain in Hit; eauto;
      [ destruct o'; intros [= <-]; exact Hit
      | eapply stInv_updateLast; eauto
      | apply chain_updateLast; [assumption .. | apply oneChange_refl] ]
  end.
Qed.

Lemma run_chain :
  forall fuel i tr scope r,
    stInv lines scope0 tr scope -> chain scope0 tr ->
    run recurse fuel lines i tr scope = Some r ->
    chain scope0 (trace r).
Proof.
  induction fuel as [| fuel IH]; intros i tr scope r Hinv Hch; simpl;
    destruct (lines !! i) as [line |] eqn:Hl.
  1: discriminate.
  1, 3: intros [= <-]; exact Hch.
  destruct (execLine recurse fuel lines i line tr scope) as [o |] eqn:Hex;
    [| discriminate].
  pose proof (execLine_chain _ _ _ _ _ _ Hl Hinv Hch Hex) as Ho.
  destruct (execLine_inv recurse recurse_inv lines lines_split scope0
              _ _ _ _ _ _ Hl Hinv Hex) as [Hinv' _].
  destruct o as [i' tr' scope' | r' | message tr' scope']; simpl in Ho, Hinv'.
  - apply IH; assumption.
  - intros [= <-]. exact Ho.
  - intros [= <-].
    destruct Hinv' as (_ & init & p & -> & _ & _ & Hv).
    unfold catch. rewrite pop_snoc. unfold push. simpl.
    apply chain_app in Ho as [Hinit _].
    apply chain_snoc; [exact Hinit |]. simpl. rewrite Hv. apply oneChange_refl.
Qed.

End Chain.

Lemma getExecutionTrace_chain :
  forall fuel code initialScope startLine providedInput r,
    getExecutionTrace fuel code initialScope startLine providedInput = Some r ->
    chain (provideInput initialScope providedInput) (trace r).
Proof.
  induction fuel as [| fuel IH]; intros code initialScope startLine providedInput r;
    simpl; [discriminate |].
  apply run_chain.
  - intros code' scope' r' H. apply (getExecutionTrace_inv _ _ _ _ _ _ H).
  - intros code' scope' r' H. apply (IH _ _ _ _ _ H).
  - apply split_lines.
  - repeat split; constructor.
  - exact I.
Qed.

(** X9. One change per step: in a returned trace every snapshot is the
    snapshot of the step before it (for the first step, the scope the call
    started with, provided input included) with at most one variable set. *)
Theorem one_change_per_step fuel code initialScope startLine providedInput r :
  getExecutionTrace fuel code initialScope startLine providedInput = Some r ->
  chain (provideInput initialScope providedInput) (trace r).
Proof. apply getExecutionTrace_chain. Qed.

Lemma one_change_per_step_witness :
  exists r,
    getExecutionTrace 6 countProgram ∅ 0 None = Some r /\
    chain (provideInput ∅ None) (trace r).
Proof.
  eexists. split; [vm_compute; reflexivity |].
  apply (one_change_per_step 6 countProgram ∅ 0 None). vm_compute. reflexivity.
Defined.

(** X10. Variables are never removed: a name bound in the scope the call
    started with (the provided input included) is bound in the snapshot of
    every step of the trace, and a name bound in the snapshot of a step is
    bound in the snapshot of every later step. *)
Theorem variables_never_removed fuel code initialScope startLine providedInput r :
  getExecutionTrace fuel code initialScope startLine providedInput = Some r ->
  (forall i s,
     trace r !! i = Some s ->
     dom (provideInput initialScope providedInput) ⊆ dom (variables s)) /\
  (forall i j s1 s2,
     i < j -> trace r !! i = Some s1 -> trace r !! j = Some s2 ->
     dom (variables s1) ⊆ dom (variables s2)).
Proof.
  intros H. apply getExecutionTrace_chain in H. split.
  - intros i s Hs. eapply chain_dom; eauto.
  - intros i j s1 s2 Hij H1 H2.
    pose proof (chain_drop _ _ _ _ H H1) as Hd.
    eapply (chain_dom _ _ (j - S i)); [exact Hd |].
    rewrite lookup_drop. replace (S i + (j - S i)) with j by lia. exact H2.
Qed.

Lemma variables_never_removed_witness :
  exists r s1 s2,
    getExecutionTrace 3 twoAssignments {[ "z" := VNum JS.zero ]} 0 None = Some r /\
    trace r !! 0 = Some s1 /\ trace r !! 1 = Some s2 /\
    dom (provideInput {[ "z" := VNum JS.zero ]} None) ⊆ dom (variables s1) /\
    dom (variables s1) ⊆ dom (variables s2).
Proof.
  destruct (getExecutionTrace 3 twoAssignments {[ "z" := VNum JS.zero ]} 0 None)
    as [r |] eqn:Hr; [| vm_compute in Hr; discriminate].
  assert (Hlen : length (trace r) = 2)
    by (vm_compute in Hr; injection Hr as <-; reflexivity).
  destruct (trace r) as [| s1 [| s2 tr]] eqn:Htr; try discriminate.
  exists r, s1, s2. rewrite Htr.
  split; [reflexivity |]. split; [reflexivity |]. split; [reflexivity |].
  pose proof (variables_never_removed 3 twoAssignments {[ "z" := VNum JS.zero ]}
                0 None r Hr) as [Hstart Hlater].
  split.
  - apply (Hstart 0 s1). rewrite Htr. reflexivity.
  - apply (Hlater 0 1 s1 s2); [lia | rewrite Htr; reflexivity | rewrite Htr; reflexivity].
Defined.

(** ** Sources without loops *)

Lemma statementNumbers_step lines i line :
  lines !! i = Some line ->
  statementNumbers lines i
  = (if isStatement line then [S i] else []) ++ statementNumbers lines (S i).
Proof.
  intros H. unfold statementNumbers. rewrite (drop_S _ _ _ H). simpl.
  destruct (isStatement line); reflexivity.
Qed.

Lemma statementNumbers_end lines i :
  lines !! i = None -> statementNumbers lines i = [].
Proof.
  intros H. unfold statementNumbers. rewrite drop_ge; [reflexivity |].
  apply lookup_ge_None. exact H.
Qed.

Section LoopFree.

Variable recurse : string -> Scope -> option ExecutorResponse.

Lemma execLine_loopFree fuel lines i line tr scope :
  JS.exec forLoopPattern (JS.trim line) = None ->
  exists o,
    execLine recurse fuel lines i line tr scope = Some o /\
    lineOutcome i line tr scope o.
Proof.
  intros Hfor. unfold execLine, lineOutcome, isStatement.
  destruct (_ || _); simpl negb; cbv iota; [eauto |].
  rewrite Hfor. unfold push.
  destruct (JS.exec inputPattern _) as [[| varName [| group [| ? ?]]] |].
  3: { destruct (negb (JS.isEmpty (JS.trim group)));
         [destruct (evaluateExpression _ _) as [scope1 [prompt | message]] |];
         eexists; (split; [reflexivity |]); rewrite ?updateLast_snoc;
         eexists; (split; [| simpl; eauto]); reflexivity. }
  all: destruct (JS.exec assignmentPattern _) as [[| varName' [| valueExpr [| ? ?]]] |].
  all: try match goal with
  | |- context [JS.exec printPattern ?l] =>
      destruct (JS.exec printPattern l) as [[| group' [| ? ?]] |]
  end.
  all: try (destruct (negb (JS.isEmpty _))).
  all: try match goal with
  | |- context [evaluateExpression ?e ?sc] =>
      destruct (evaluateExpression e sc) as [scope1 [value | message]]
  end.
  all: eexists; (split; [reflexivity |]); rewrite ?updateLast_snoc;
    eexists; (split; [| simpl; eauto]); reflexivity.
Qed.

Variable lines : list string.
Hypothesis lines_loopFree : loopFree lines.

Lemma line_loopFree i line :
  lines !! i = Some line -> JS.exec forLoopPattern (JS.trim line) = None.
Proof.
  intros H. unfold loopFree in lines_loopFree.
  rewrite Forall_forall in lines_loopFree. apply lines_loopFree.
  apply list_elem_of_lookup. eauto.
Qed.

(** With a unit of fuel for each line that is left, the scan returns. *)
Lemma run_loopFree_returns :
  forall fuel i tr scope,
    length lines - i <= fuel ->
    exists r, run recurse fuel lines i tr scope = Some r.
Proof.
  induction fuel as [| fuel IH]; intros i tr scope Hfuel; simpl;
    destruct (lines !! i) as [line |] eqn:Hl; eauto.
  - apply lookup_lt_Some in Hl. lia.
  - pose proof (lookup_lt_Some _ _ _ Hl) as Hlt.
    destruct (execLine_loopFree fuel lines i line tr scope (line_loopFree _ _ Hl))
      as (o & -> & Ho).
    destruct o as [i' tr' scope' | r | message tr' scope']; eauto.
    assert (i' = i) as ->.
    { unfold lineOutcome in Ho. destruct (isStatement line).
      - destruct Ho as (s & _ & -> & _). reflexivity.
      - injection Ho as -> _ _. reflexivity. }
    apply IH. lia.
Qed.

(** The line numbers of the trace are the numbers of the statement lines,
    in order, as far as the scan went. *)
Lemma run_loopFree_numbers :
  forall fuel i tr scope r,
    run recurse fuel lines i tr scope = Some r ->
    exists done rest,
      map lineNumber (trace r) = map lineNumber tr ++ done /\
      statementNumbers lines i = done ++ rest /\
      (error r = None ->
       (forall e, last (trace r) = Some e -> requiresInput e = false) ->
       rest = []).
Proof.
  induction fuel as [| fuel IH]; intros i tr scope r; simpl;
    destruct (lines !! i) as [line |] eqn:Hl; try discriminate.
  1, 3: intros [= <-]; exists [], []; simpl;
    rewrite app_nil_r, (statementNumbers_end _ _ Hl); auto.
  destruct (execLine_loopFree fuel lines i line tr scope (line_loopFree _ _ Hl))
    as (o & -> & Ho).
  rewrite (statementNumbers_step _ _ _ Hl).
  unfold lineOutcome in Ho. destruct (isStatement line).
  - destruct Ho as (s & Hs & Ho).
    destruct o as [i' tr' scope' | r' | message tr' scope'].
    + destruct Ho as [-> ->]. intros H.
      apply IH in H as (done & rest & Hmap & Hnum & Hfull).
      replace (i + 1) with (S i) in * by lia.
      exists (S i :: done), rest. rewrite Hmap, map_app. simpl. rewrite Hs.
      rewrite <- app_assoc. simpl. rewrite Hnum. auto.
    + destruct Ho as (Htr & Hreq & Herr). intros Heq. injection Heq as Heq.
      subst r'.
      exists [S i], (statementNumbers lines (S i)). rewrite Htr, map_app. simpl.
      rewrite Hs. replace (i + 1) with (S i) by lia.
      split; [reflexivity |]. split; [reflexivity |].
      intros _ Hlast. specialize (Hlast s). rewrite last_snoc in Hlast.
      specialize (Hlast eq_refl). congruence.
    + subst tr'. intros [= <-]. unfold catch. rewrite pop_snoc.
      exists [S i], (statementNumbers lines (S i)). simpl. unfold push.
      rewrite map_app. simpl. replace (i + 1) with (S i) by lia.
      split; [reflexivity |]. split; [reflexivity |]. discriminate.
  - subst o. simpl. intros H. apply IH in H. replace (i + 1) with (S i) in H by lia.
    exact H.
Qed.

End LoopFree.

(** X11. A source without loops always returns: when no line is a loop
    header, the call returns a response for every scope, start line and
    provided input, within one unit of fuel for each line and one for the
    call. *)
Theorem loop_free_returns code initialScope startLine providedInput extra :
  loopFree (JS.split JS.newline code) ->
  exists r,
    getExecutionTrace (S (length (JS.split JS.newline code)) + extra) code
      initialScope startLine providedInput = Some r.
Proof.
  intros H. simpl. apply run_loopFree_returns; [exact H | lia].
Qed.

Lemma loop_free_returns_witness :
  loopFree (JS.split JS.newline ageProgram) /\
  exists r, getExecutionTrace (3 + 0) ageProgram ∅ 0 None = Some r.
Proof.
  assert (H : loopFree (JS.split JS.newline ageProgram))
    by (repeat constructor).
  split; [exact H |].
  exact (loop_free_returns ageProgram ∅ 0 None 0 H).
Defined.

(** X12. One step per statement: on a source without loops, the line
    numbers of the returned trace are the numbers of the statement lines
    from the start line on, in order and without repetition, up to where the
    scan stopped; when the call ends without an error and without a pause,
    they are all of them: blank lines and comments give no step. *)
Theorem one_step_per_statement fuel code initialScope startLine providedInput r :
  loopFree (JS.split JS.newline code) ->
  getExecutionTrace fuel code initialScope startLine providedInput = Some r ->
  exists rest,
    statementNumbers (JS.split JS.newline code) startLine
    = map lineNumber (trace r) ++ rest /\
    (error r = None ->
     (forall e, last (trace r) = Some e -> requiresInput e = false) ->
     rest = []).
Proof.
  intros Hfree. destruct fuel as [| fuel]; simpl; [discriminate |].
  intros H. apply run_loopFree_numbers in H as (done & rest & Hmap & Hnum & Hfull);
    [| exact Hfree].
  simpl in Hmap. subst done. eauto.
Qed.

Lemma one_step_per_statement_witness :
  exists r,
    loopFree (JS.split JS.newline commentedProgram) /\
    getExecutionTrace 6 commentedProgram ∅ 0 None = Some r /\
    statementNumbers (JS.split JS.newline commentedProgram) 0 = [2; 4] /\
    exists rest,
      statementNumbers (JS.split JS.newline commentedProgram) 0
      = map lineNumber (trace r) ++ rest /\
      (error r = None ->
       (forall e, last (trace r) = Some e -> requiresInput e = false) ->
       rest = []).
Proof.
  assert (H : loopFree (JS.split JS.newline commentedProgram))
    by (repeat constructor).
  eexists. split; [exact H |]. split; [vm_compute; reflexivity |].
  split; [reflexivity |].
  apply (one_step_per_statement 6 commentedProgram ∅ 0 None _ H).
  vm_compute. reflexivity.
Defined.

(** ** The statements, one shape at a time *)

Section Statements.

Local Arguments String.append : simpl nomatch.

Lemma taken_string_all w : JS.taken_string (JS.rev_append w EmptyString) = w.
Proof.
  unfold JS.taken_string. rewrite rev_append_app. simpl. apply append_empty.
Qed.

(** A [*] item takes a whole run, which may be empty, when the rest of the
    pattern matches what follows the run. *)
Lemma exec_star_run capture a p w rest groups :
  allChars (JS.atomMatches a) w = true ->
  stops a rest ->
  JS.exec p rest = Some groups ->
  JS.exec (JS.Star capture a :: p) (w +:+ rest)
  = Some (if capture then w :: groups else groups).
Proof.
  intros Hw Hstop Hp. simpl. apply (greedy_run _ _ _ _ Hstop); [exact Hw |].
  rewrite Hp, taken_string_all. reflexivity.
Qed.

(** A repetition that runs to the end of the text gives its last character
    back when the rest of the pattern wants one character. *)
Lemma greedy_back {A : Type} a (k : string -> string -> option A) c r :
  JS.atomMatches a c = true ->
  (forall taken, k taken EmptyString = None) ->
  forall e taken,
    allChars (JS.atomMatches a) e = true ->
    k (JS.rev_append e taken) (String c EmptyString) = Some r ->
    JS.greedy a taken (e +:+ String c EmptyString) k = Some r.
Proof.
  intros Hc Hend. induction e as [| d e IH]; intros taken He Hk; simpl in *.
  - rewrite Hc, Hend. exact Hk.
  - apply andb_true_iff in He as [Hd He]. rewrite Hd, (IH _ He Hk). reflexivity.
Qed.

Lemma exec_group_paren e :
  oneLine e = true ->
  JS.exec [JS.Star true JS.Dot; JS.One (JS.Lit ")")] (e +:+ ")") = Some [e].
Proof.
  intros He. simpl. apply greedy_back; [reflexivity | reflexivity | exact He |].
  simpl. rewrite taken_string_all. reflexivity.
Qed.

Lemma printPattern_call e :
  oneLine e = true -> JS.exec printPattern (printCall e) = Some [e].
Proof.
  intros He. unfold printPattern, printCall. rewrite exec_lits.
  apply exec_group_paren, He.
Qed.

Lemma inputCallPattern_call p :
  oneLine p = true -> JS.exec inputCallPattern (inputCall p) = Some [p].
Proof.
  intros Hp. unfold inputCallPattern, inputCall. rewrite exec_lits.
  apply exec_group_paren, Hp.
Qed.

(** What [greedy] hands on: a run of the atom was taken off the text. *)
Lemma greedy_elim {A : Type} a (k : string -> string -> option A) :
  forall s taken r,
    JS.greedy a taken s k = Some r ->
    exists w rest,
      s = w +:+ rest /\ allChars (JS.atomMatches a) w = true /\
      k (JS.rev_append w taken) rest = Some r.
Proof.
  induction s as [| c s IH]; intros taken r; simpl.
  - intros H. exists EmptyString, EmptyString. auto.
  - destruct (JS.atomMatches a c) eqn:Hc;
      [| intros H; exists EmptyString, (String c s); auto].
    destruct (JS.greedy a (String c taken) s k) as [r' |] eqn:Hg.
    + intros [= <-]. apply IH in Hg as (w & rest & -> & Hw & Hk).
      exists (String c w), rest. simpl. rewrite Hc, Hw. auto.
    + intros H. exists EmptyString, (String c s). auto.
Qed.

Lemma exec_star_elim capture a p s groups :
  JS.exec (JS.Star capture a :: p) s = Some groups ->
  exists w rest groups',
    s = w +:+ rest /\ allChars (JS.atomMatches a) w = true /\
    JS.exec p rest = Some groups'.
Proof.
  simpl. intros H. apply greedy_elim in H as (w & rest & -> & Hw & Hk).
  destruct (JS.exec p rest) as [groups' |] eqn:Hp; [| discriminate].
  eauto 6.
Qed.

Lemma exec_plus_elim capture a p s groups :
  JS.exec (JS.Plus capture a :: p) s = Some groups ->
  exists c w rest groups',
    s = String c w +:+ rest /\ JS.atomMatches a c = true /\
    allChars (JS.atomMatches a) w = true /\
    JS.exec p rest = Some groups'.
Proof.
  simpl. destruct s as [| c s]; [discriminate |].
  destruct (JS.atomMatches a c) eqn:Hc; [| discriminate].
  intros H. apply greedy_elim in H as (w & rest & -> & Hw & Hk).
  destruct (JS.exec p rest) as [groups' |] eqn:Hp; [| discriminate].
  exists c, w, rest, groups'. auto.
Qed.

Lemma exec_one_elim a p s groups :
  JS.exec (JS.One a :: p) s = Some groups ->
  exists c rest, s = String c rest /\ JS.atomMatches a c = true /\
                 JS.exec p rest = Some groups.
Proof.
  simpl. destruct s as [| c s]; [discriminate |].
  destruct (JS.atomMatches a c) eqn:Hc; [| discriminate]. eauto.
Qed.

Lemma contains_app c a b : contains c (a +:+ b) = contains c a || contains c b.
Proof.
  induction a as [| d a IH]; simpl; [reflexivity |].
  rewrite IH. apply orb_assoc.
Qed.

Lemma contains_refused c (q : ascii -> bool) w :
  q c = false -> allChars q w = true -> contains c w = false.
Proof.
  intros Hq. induction w as [| d w IH]; simpl; [reflexivity |].
  intros H. apply andb_true_iff in H as [Hd Hw]. rewrite (IH Hw), orb_false_r.
  destruct (Ascii.eqb_spec d c) as [-> |]; [congruence | reflexivity].
Qed.

(** A text that a pattern matches holds no character that every atom of
    the pattern refuses. *)
Lemma exec_without c p :
  Forall (fun it => JS.atomMatches (itemAtom it) c = false) p ->
  forall s groups, JS.exec p s = Some groups -> contains c s = false.
Proof.
  induction 1 as [| it p Hit Hp IH]; intros s groups.
  - simpl. destruct s; [reflexivity | discriminate].
  - destruct it as [a | capture a | capture a]; simpl in Hit; intros H.
    + apply exec_one_elim in H as (d & rest & -> & Hd & H). simpl.
      rewrite (IH _ _ H), orb_false_r.
      destruct (Ascii.eqb_spec d c) as [-> |]; [congruence | reflexivity].
    + apply exec_star_elim in H as (w & rest & g & -> & Hw & H).
      rewrite contains_app, (contains_refused c _ w Hit Hw), (IH _ _ H).
      reflexivity.
    + apply exec_plus_elim in H as (d & w & rest & g & -> & Hd & Hw & H).
      change (String d w +:+ rest) with (String d (w +:+ rest)). simpl.
      rewrite contains_app, (contains_refused c _ w Hit Hw), (IH _ _ H).
      destruct (Ascii.eqb_spec d c) as [-> |]; [congruence | reflexivity].
Qed.

Lemma forLoopPattern_sign s : contains "=" s = true -> JS.exec forLoopPattern s = None.
Proof.
  intros Hs. destruct (JS.exec forLoopPattern s) as [groups |] eqn:H; [| reflexivity].
  apply (exec_without "=") in H; [congruence |].
  unfold forLoopPattern. simpl. repeat constructor.
Qed.

Lemma whiteSpace_facts c :
  JS.isWhiteSpace c = true ->
  JS.isWordChar c = false /\ Ascii.eqb c "=" = false.
Proof.
  destruct c as [[] [] [] [] [] [] [] []]; vm_compute; auto; discriminate.
Qed.

(** Two splits of one text into a run of [q] and a rest that [q] stops at
    are the same split. *)
Lemma run_unique (q : ascii -> bool) :
  forall w1 w2 r1 r2,
    allChars q w1 = true -> allChars q w2 = true ->
    match r1 with String c _ => q c = false | EmptyString => True end ->
    match r2 with String c _ => q c = false | EmptyString => True end ->
    w1 +:+ r1 = w2 +:+ r2 ->
    w1 = w2 /\ r1 = r2.
Proof.
  induction w1 as [| c w1 IH]; intros [| d w2] r1 r2 H1 H2 S1 S2 E; simpl in *.
  - auto.
  - subst r1. apply andb_true_iff in H2 as [Hd _]. congruence.
  - subst r2. apply andb_true_iff in H1 as [Hc _]. congruence.
  - injection E as -> E. apply andb_true_iff in H1 as [_ H1].
    apply andb_true_iff in H2 as [_ H2].
    destruct (IH _ _ _ H1 H2 S1 S2 E) as [-> ->]. auto.
Qed.

Lemma sign_after_space ws rest :
  allChars JS.isWhiteSpace ws = true ->
  match ws +:+ String "=" rest with
  | String c _ => JS.isWordChar c = false
  | EmptyString => True
  end.
Proof.
  destruct ws as [| c ws]; simpl; [reflexivity |].
  intros H. apply andb_true_iff in H as [Hc _]. apply whiteSpace_facts, Hc.
Qed.

(** The pattern of the assignment on the line [name = e]. *)
Lemma assignmentPattern_line name ws1 ws2 e :
  isWord name = true ->
  allChars JS.isWhiteSpace ws1 = true ->
  allChars JS.isWhiteSpace ws2 = true ->
  stops JS.Space e ->
  oneLine e = true ->
  JS.exec assignmentPattern (assignmentLine name ws1 ws2 e) = Some [name; e].
Proof.
  intros Hname H1 H2 Hstop He.
  destruct (isWord_inv _ Hname) as (c & w & -> & Hc & Hw).
  unfold assignmentPattern, assignmentLine.
  apply (exec_plus_run true JS.Word); auto.
  { apply (sign_after_space ws1 (ws2 +:+ e) H1). }
  apply (exec_star_run false JS.Space); auto; [reflexivity |].
  change ("=" +:+ ws2 +:+ e) with (String "=" (ws2 +:+ e)).
  change (JS.exec (JS.One (JS.Lit "=") :: ?p) (String "=" ?s)) with (JS.exec p s).
  apply (exec_star_run false JS.Space); auto.
  rewrite <- (append_empty e) at 1.
  apply (exec_star_run true JS.Dot); [exact He | exact I | reflexivity].
Qed.

(** The pattern of the input statement on the line [name = input(p)]. *)
Lemma inputPattern_line name ws1 ws2 p :
  isWord name = true ->
  allChars JS.isWhiteSpace ws1 = true ->
  allChars JS.isWhiteSpace ws2 = true ->
  oneLine p = true ->
  JS.exec inputPattern (assignmentLine name ws1 ws2 (inputCall p)) = Some [name; p].
Proof.
  intros Hname H1 H2 Hp.
  destruct (isWord_inv _ Hname) as (c & w & -> & Hc & Hw).
  unfold inputPattern, assignmentLine.
  apply (exec_plus_run true JS.Word); auto.
  { apply (sign_after_space ws1 (ws2 +:+ inputCall p) H1). }
  apply (exec_star_run false JS.Space); auto; [reflexivity |].
  change ("=" +:+ ws2 +:+ inputCall p) with (String "=" (ws2 +:+ inputCall p)).
  change (JS.exec (JS.One (JS.Lit "=") :: ?q) (String "=" ?s)) with (JS.exec q s).
  apply (exec_star_run false JS.Space); auto; [reflexivity |].
  apply (inputCallPattern_call p Hp).
Qed.

(** The pattern of the input statement matches [name = e] only when [e] is
    a call of [input]. *)
Lemma inputPattern_assignment name ws1 ws2 e :
  isWord name = true ->
  allChars JS.isWhiteSpace ws1 = true ->
  allChars JS.isWhiteSpace ws2 = true ->
  stops JS.Space e ->
  JS.exec inputCallPattern e = None ->
  JS.exec inputPattern (assignmentLine name ws1 ws2 e) = None.
Proof.
  intros Hname H1 H2 Hstop He.
  destruct (JS.exec inputPattern _) as [groups |] eqn:H; [exfalso | reflexivity].
  unfold inputPattern in H.
  apply exec_plus_elim in H as (c & w & r1 & g1 & E1 & Hc & Hw & H).
  apply exec_star_elim in H as (w2 & r2 & g2 & -> & Hw2 & H).
  apply exec_one_elim in H as (d & r3 & -> & Hd & H).
  apply exec_star_elim in H as (w3 & r4 & g4 & -> & Hw3 & H).
  apply Ascii.eqb_eq in Hd. subst d.
  assert (Hi : match r4 with String x _ => JS.isWhiteSpace x = false
                          | EmptyString => True end).
  { destruct r4 as [| x r4]; [exact I |].
    apply exec_one_elim in H as (x' & ? & [= <- <-] & Hx & _).
    apply Ascii.eqb_eq in Hx. subst x. reflexivity. }
  unfold isWord in Hname. apply andb_true_iff in Hname as [_ Hname].
  unfold assignmentLine in E1.
  assert (HW : allChars JS.isWordChar (String c w) = true)
    by (apply andb_true_iff; split; [exact Hc | exact Hw]).
  destruct (run_unique JS.isWordChar _ _ _ _ Hname HW
              (sign_after_space ws1 (ws2 +:+ e) H1)
              (sign_after_space w2 (w3 +:+ r4) Hw2) E1) as [_ E2].
  destruct (run_unique JS.isWhiteSpace ws1 w2 (String "=" (ws2 +:+ e))
              (String "=" (w3 +:+ r4)) H1 Hw2 eq_refl eq_refl E2) as [_ E3].
  injection E3 as E3.
  destruct (run_unique JS.isWhiteSpace _ _ _ _ H2 Hw3 Hstop Hi E3) as [_ ->].
  unfold inputCallPattern in He. congruence.
Qed.

End Statements.

Lemma run_line recurse fuel lines i line tr scope :
  lines !! i = Some line ->
  run recurse (S fuel) lines i tr scope
  = match execLine recurse fuel lines i line tr scope with
    | None => None
    | Some (Continue i' tr scope) => run recurse fuel lines (i' + 1) tr scope
    | Some (Return response) => Some response
    | Some (Thrown message tr scope) => Some (catch (i + 1) message tr scope)
    end.
Proof. intros Hl. simpl. rewrite Hl. reflexivity. Qed.

(** X13. The print statement: a line that trims to [print(e)], where [e]
    holds no line terminator, evaluates [e] against the current scope. With
    a value, the line gives one step, which carries the text of the value
    as its output and the scope unchanged, and the scan goes on with the
    next line; when the evaluation fails the call ends with the error step
    of the line. *)
Theorem print_statement recurse fuel lines i line tr scope e :
  lines !! i = Some line ->
  JS.trim line = printCall e ->
  oneLine e = true ->
  run recurse (S fuel) lines i tr scope
  = match snd (evaluateExpression e scope) with
    | Normal value =>
        run recurse fuel lines (i + 1)
          (push tr (withOutput (toString value)
                      (plainStep (i + 1) (VStr "Printing output") scope)))
          scope
    | Throw message => Some (failsAt i message tr scope)
    end.
Proof.
  intros Hl Htrim He. rewrite (run_line _ _ _ _ _ _ _ Hl).
  unfold execLine. rewrite Htrim.
  change (JS.isEmpty (printCall e) || JS.startsWith (printCall e) "#") with false.
  cbv iota.
  assert (H1 : JS.exec inputPattern (printCall e) = None) by reflexivity.
  assert (H2 : JS.exec forLoopPattern (printCall e) = None) by reflexivity.
  assert (H3 : JS.exec assignmentPattern (printCall e) = None) by reflexivity.
  rewrite H1, H2, H3, (printPattern_call _ He).
  destruct (evaluateExpression_scope e scope) as [c ->].
  destruct c as [value | message]; cbn [snd].
  - unfold push. rewrite !updateLast_snoc. reflexivity.
  - apply f_equal, catch_push.
Qed.

Lemma print_statement_witness :
  run (fun _ _ => None) 2 ["  print(2 * 3)"] 0 [] ∅
  = Some {| trace := [withOutput "6" (plainStep 1 (VStr "Printing output") ∅)];
            error := None |}.
Proof.
  exact (print_statement (fun _ _ => None) 1 ["  print(2 * 3)"] 0
           "  print(2 * 3)" [] ∅ "2 * 3" eq_refl eq_refl eq_refl).
Defined.

(** X14. The assignment: a line that trims to [name = e], where [name] is a
    word, white space may stand on both sides of the sign, and [e] holds no
    line terminator and is not a call of [input]. An empty [e] is a syntax
    error. Otherwise [e] is evaluated against the current scope; with a
    value, the line gives one step whose scope is the current scope after
    [scope[name] = value] (the name bound to the value, or, for the name
    [__proto__] that the scope does not hold already, nothing bound) and
    the scan goes on with the next line in that scope; when the evaluation
    fails the call ends with the error step of the line, whose scope is the
    one before the line. *)
Theorem assignment_statement recurse fuel lines i line tr scope name ws1 ws2 e :
  lines !! i = Some line ->
  JS.trim line = assignmentLine name ws1 ws2 e ->
  isWord name = true ->
  allChars JS.isWhiteSpace ws1 = true ->
  allChars JS.isWhiteSpace ws2 = true ->
  stops JS.Space e ->
  oneLine e = true ->
  JS.exec inputCallPattern e = None ->
  run recurse (S fuel) lines i tr scope
  = if JS.isEmpty e then Some (failsAt i "SyntaxError: invalid syntax" tr scope)
    else
      match snd (evaluateExpression e scope) with
      | Normal value =>
          run recurse fuel lines (i + 1)
            (push tr (plainStep (i + 1)
               (VStr ("Assign " +:+ stringify value +:+ " to '" +:+ name +:+ "'"))
               (setProperty name value scope)))
            (setProperty name value scope)
      | Throw message => Some (failsAt i message tr scope)
      end.
Proof.
  intros Hl Htrim Hname H1 H2 Hstop He Hcall.
  rewrite (run_line _ _ _ _ _ _ _ Hl). unfold execLine. rewrite Htrim.
  assert (Hs : JS.isEmpty (assignmentLine name ws1 ws2 e)
               || JS.startsWith (assignmentLine name ws1 ws2 e) "#" = false).
  { destruct (isWord_inv _ Hname) as (c & w & -> & Hc & _).
    simpl. destruct (Ascii.eqb_spec c "#") as [-> |]; [discriminate | reflexivity]. }
  rewrite Hs. cbv iota.
  rewrite (inputPattern_assignment _ _ _ _ Hname H1 H2 Hstop Hcall).
  rewrite forLoopPattern_sign.
  2:{ unfold assignmentLine. rewrite !contains_app. simpl.
      rewrite !orb_true_r. reflexivity. }
  rewrite (assignmentPattern_line _ _ _ _ Hname H1 H2 Hstop He).
  destruct (JS.isEmpty e); cbn [negb].
  - apply f_equal, catch_push.
  - destruct (evaluateExpression_scope e scope) as [c ->].
    destruct c as [value | message]; cbn [snd].
    + unfold push. rewrite !updateLast_snoc. reflexivity.
    + apply f_equal, catch_push.
Qed.

Lemma assignment_statement_witness :
  run (fun _ _ => None) 2 ["total = 'a'"] 0 [] ∅
  = Some {| trace := [plainStep 1 (VStr ("Assign " +:+ stringify (VStr "a")
                                         +:+ " to 'total'"))
                        {[ "total" := VStr "a" ]}];
            error := None |}.
Proof.
  exact (assignment_statement (fun _ _ => None) 1 ["total = 'a'"] 0
           "total = 'a'" [] ∅ "total" " " " " "'a'"
           eq_refl eq_refl eq_refl eq_refl eq_refl eq_refl eq_refl eq_refl).
Defined.

(** X15. The input statement: a line that trims to [name = input(p)], where
    [name] is a word and [p] holds no line terminator. The prompt is the
    value of [p] trimmed, or the empty text when that is empty. With a
    prompt, the call ends there, without an error, whatever lines follow:
    its last step asks for input into [name], is described by the prompt (or
    by a fixed text when the prompt is the empty text, zero or NaN) and
    shows the scope without a new binding. When the evaluation of the prompt
    fails the call ends with the error step of the line. *)
Theorem input_statement recurse fuel lines i line tr scope name ws1 ws2 p :
  lines !! i = Some line ->
  JS.trim line = assignmentLine name ws1 ws2 (inputCall p) ->
  isWord name = true ->
  allChars JS.isWhiteSpace ws1 = true ->
  allChars JS.isWhiteSpace ws2 = true ->
  oneLine p = true ->
  run recurse (S fuel) lines i tr scope
  = match (if JS.isEmpty (JS.trim p) then Normal (VStr EmptyString)
           else snd (evaluateExpression (JS.trim p) scope)) with
    | Normal prompt =>
        Some {| trace :=
                  push tr (asInputRequest
                    (if truthy prompt then prompt
                     else VStr "Awaiting user input...") name
                    (plainStep (i + 1)
                       (VStr ("Executing line: "
                              +:+ assignmentLine name ws1 ws2 (inputCall p)))
                       scope));
                error := None |}
    | Throw message => Some (failsAt i message tr scope)
    end.
Proof.
  intros Hl Htrim Hname H1 H2 Hp.
  rewrite (run_line _ _ _ _ _ _ _ Hl). unfold execLine. rewrite Htrim.
  assert (Hs : JS.isEmpty (assignmentLine name ws1 ws2 (inputCall p))
               || JS.startsWith (assignmentLine name ws1 ws2 (inputCall p)) "#"
               = false).
  { destruct (isWord_inv _ Hname) as (c & w & -> & Hc & _).
    simpl. destruct (Ascii.eqb_spec c "#") as [-> |]; [discriminate | reflexivity]. }
  rewrite Hs. cbv iota.
  rewrite (inputPattern_line _ _ _ _ Hname H1 H2 Hp).
  destruct (JS.isEmpty (JS.trim p)); cbn [negb].
  - unfold push. rewrite updateLast_snoc. reflexivity.
  - destruct (evaluateExpression_scope (JS.trim p) scope) as [c ->].
    destruct c as [prompt | message]; cbn [snd].
    + unfold push. rewrite updateLast_snoc. reflexivity.
    + apply f_equal, catch_push.
Qed.

Lemma input_statement_witness :
  run (fun _ _ => None) 1 ["n = input()"; "print(n)"] 0 [] ∅
  = Some {| trace := [asInputRequest (VStr "Awaiting user input...") "n"
                        (plainStep 1 (VStr "Executing line: n = input()") ∅)];
            error := None |}.
Proof.
  exact (input_statement (fun _ _ => None) 0 ["n = input()"; "print(n)"] 0
           "n = input()" [] ∅ "n" " " " " EmptyString
           eq_refl eq_refl eq_refl eq_refl eq_refl eq_refl).
Defined.

Lemma nonWord_facts c :
  JS.isWordChar c = false ->
  Ascii.eqb c "f" = false /\ Ascii.eqb c "p" = false.
Proof.
  destruct c as [[] [] [] [] [] [] [] []]; vm_compute; auto; discriminate.
Qed.

(** X16. A statement that begins with a character that is neither a word
    character nor the comment sign has none of the four shapes: the call
    ends with the syntax error at that line, and the error step shows the
    scope unchanged. *)
Theorem unsupported_statement recurse fuel lines i line tr scope c rest :
  lines !! i = Some line ->
  JS.trim line = String c rest ->
  JS.isWordChar c = false ->
  Ascii.eqb c "#" = false ->
  run recurse (S fuel) lines i tr scope
  = Some (failsAt i "SyntaxError: invalid or unsupported syntax" tr scope).
Proof.
  intros Hl Htrim Hc Hsign.
  rewrite (run_line _ _ _ _ _ _ _ Hl). unfold execLine. rewrite Htrim.
  destruct (nonWord_facts _ Hc) as [Hf Hp].
  assert (Hs : JS.isEmpty (String c rest) || JS.startsWith (String c rest) "#"
               = false) by (simpl; exact Hsign).
  assert (H1 : JS.exec inputPattern (String c rest) = None)
    by (unfold inputPattern; simpl; rewrite Hc; reflexivity).
  assert (H2 : JS.exec forLoopPattern (String c rest) = None)
    by (unfold forLoopPattern; simpl; rewrite Hf; reflexivity).
  assert (H3 : JS.exec assignmentPattern (String c rest) = None)
    by (unfold assignmentPattern; simpl; rewrite Hc; reflexivity).
  assert (H4 : JS.exec printPattern (String c rest) = None)
    by (unfold printPattern; simpl; rewrite Hp; reflexivity).
  rewrite Hs, H1, H2, H3, H4. cbv iota.
  apply f_equal, catch_push.
Qed.

Lemma unsupported_statement_witness :
  run (fun _ _ => None) 1 ["(1 + 2)"; "x = 1"] 0 [] ∅
  = Some (failsAt 0 "SyntaxError: invalid or unsupported syntax" [] ∅).
Proof.
  exact (unsupported_statement (fun _ _ => None) 0 ["(1 + 2)"; "x = 1"] 0
           "(1 + 2)" [] ∅ "(" "1 + 2)" eq_refl eq_refl eq_refl eq_refl).
Defined.

(** ** The evaluator and white space *)

(** X6. White space around an expression is ignored: the evaluator gives
    the trimmed text what it gives the text. *)
Theorem evaluateExpression_trim (expr : string) (scope : Scope) :
  evaluateExpression (JS.trim expr) scope = evaluateExpression expr scope.
Proof.
  unfold evaluateExpression at 1.
  apply evaluateExpression_trim_fuel; [apply trim_idem | lia].
Qed.

(** ** Resuming after an input *)

Lemma setProperty_bound name value scope :
  String.eqb name "__proto__" = false ->
  setProperty name value scope !! name = Some value.
Proof.
  intros Hname. unfold setProperty.
  destruct (scope !! name); rewrite ?Hname; apply lookup_insert_eq.
Qed.

(** X17. A resumed call, which is given the input as [providedInput], binds
    the input variable before its first line: when the variable is not
    [__proto__], every step of its trace shows it bound. *)
Theorem resumed_steps_hold_input fuel code initialScope startLine variable value r :
  String.eqb variable "__proto__" = false ->
  getExecutionTrace fuel code initialScope startLine (Some (variable, value)) = Some r ->
  Forall (fun s => is_Some (variables s !! variable)) (trace r).
Proof.
  intros Hname H. apply getExecutionTrace_chain in H. apply Forall_lookup_2.
  intros i s Hs. pose proof (chain_dom _ _ _ _ H Hs) as Hdom.
  apply elem_of_dom, Hdom. simpl. apply elem_of_dom.
  rewrite setProperty_bound by exact Hname. eauto.
Qed.

Lemma resumed_steps_hold_input_witness :
  exists r,
    getExecutionTrace 3 ageProgram ∅ 1 (Some ("age", "30")) = Some r /\
    Forall (fun s => is_Some (variables s !! "age")) (trace r).
Proof.
  eexists. split; [vm_compute; reflexivity |].
  apply (resumed_steps_hold_input 3 ageProgram ∅ 1 "age" "30");
    [reflexivity | vm_compute; reflexivity].
Defined.

(** ** The highlighted rows of the variables panel *)

Lemma hasChanged_oneChange a b key value :
  oneChange a b ->
  b !! key = Some value ->
  hasChanged (Some a) key value = true ->
  exists name v, b = <[name := v]> a /\ key = name.
Proof.
  unfold hasChanged. intros [-> | (name & v & ->)] Hb.
  - rewrite Hb, String.eqb_refl. discriminate.
  - destruct (decide (key = name)) as [-> | Hne]; [eauto |].
    rewrite lookup_insert_ne in Hb by congruence.
    rewrite Hb, String.eqb_refl. discriminate.
Qed.

(** X18. With the scopes of two consecutive steps of one returned trace as
    [prevVariables] and [variables], the variables panel highlights at most
    one row. *)
Theorem one_highlight_per_step fuel code initialScope startLine providedInput r :
  getExecutionTrace fuel code initialScope startLine providedInput = Some r ->
  forall i prevStep currentStep key1 value1 key2 value2,
    trace r !! i = Some prevStep ->
    trace r !! S i = Some currentStep ->
    variables currentStep !! key1 = Some value1 ->
    hasChanged (Some (variables prevStep)) key1 value1 = true ->
    variables currentStep !! key2 = Some value2 ->
    hasChanged (Some (variables prevStep)) key2 value2 = true ->
    key1 = key2.
Proof.
  intros H i prevStep currentStep key1 value1 key2 value2 Hp Hc H1 C1 H2 C2.
  apply getExecutionTrace_chain in H.
  pose proof (chain_drop _ _ _ _ H Hp) as Hd.
  assert (Hcur : drop (S i) (trace r) !! 0 = Some currentStep)
    by (rewrite lookup_drop, Nat.add_0_r; exact Hc).
  destruct (drop (S i) (trace r)) as [| s rest]; [discriminate |].
  injection Hcur as ->. destruct Hd as [Hone _].
  destruct (hasChanged_oneChange _ _ _ _ Hone H1 C1) as (n1 & v1 & E1 & ->).
  destruct (hasChanged_oneChange _ _ _ _ Hone H2 C2) as (n2 & v2 & E2 & ->).
  destruct (decide (n1 = n2)) as [| Hne]; [assumption | exfalso].
  rewrite E2, lookup_insert_ne in H1 by congruence.
  unfold hasChanged in C1. rewrite H1, String.eqb_refl in C1. discriminate.
Qed.

Lemma one_highlight_per_step_witness :
  exists r prevStep currentStep,
    getExecutionTrace 3 twoAssignments ∅ 0 None = Some r /\
    trace r !! 0 = Some prevStep /\ trace r !! 1 = Some currentStep /\
    forall key value,
      variables currentStep !! key = Some value ->
      hasChanged (Some (variables prevStep)) key value = true ->
      key = "y".
Proof.
  destruct (getExecutionTrace 3 twoAssignments ∅ 0 None) as [r |] eqn:Hr;
    [| vm_compute in Hr; discriminate].
  destruct (trace r !! 0) as [s1 |] eqn:H1;
    [| vm_compute in Hr; injection Hr as <-; discriminate].
  destruct (trace r !! 1) as [s2 |] eqn:H2;
    [| vm_compute in Hr; injection Hr as <-; discriminate].
  exists r, s1, s2.
  split; [reflexivity | split; [exact H1 | split; [exact H2 |]]].
  intros key value Hk Hc.
  assert (Hy : exists v, variables s2 !! "y" = Some v /\
                         hasChanged (Some (variables s1)) "y" v = true).
  { vm_compute in Hr. injection Hr as <-.
    injection H1 as <-. injection H2 as <-.
    eexists. split; vm_compute; reflexivity. }
  destruct Hy as (v & Hv & Hcv).
  exact (one_highlight_per_step 3 twoAssignments ∅ 0 None r Hr 0 s1 s2
           key value "y" v H1 H2 Hk Hc Hv Hcv).
Defined.

(** ** The editor: line numbers and the Tab key *)

Section Editor.

Local Arguments String.append : simpl nomatch.

Lemma split_length sep s : length (JS.split sep s) = S (countChar sep s).
Proof.
  induction s as [| c s IH]; simpl; [reflexivity |].
  destruct (Ascii.eqb c sep); simpl; [rewrite IH; reflexivity |].
  destruct (JS.split sep s) as [| h t]; [discriminate |]. exact IH.
Qed.

Lemma countChar_app c a b :
  countChar c (a +:+ b) = countChar c a + countChar c b.
Proof.
  induction a as [| d a IH]; simpl; [reflexivity |]. rewrite IH. lia.
Qed.

Lemma substring_add s : forall n m1 m2,
  n + m1 + m2 <= String.length s ->
  String.substring n (m1 + m2) s
  = String.substring n m1 s +:+ String.substring (n + m1) m2 s.
Proof.
  induction s as [| c s IH]; intros n m1 m2 H; simpl in H.
  - assert (n = 0) as -> by lia. assert (m1 = 0) as -> by lia.
    assert (m2 = 0) as -> by lia. reflexivity.
  - destruct n as [| n].
    + destruct m1 as [| m1]; [reflexivity |]. simpl.
      rewrite (IH 0 m1 m2) by lia. reflexivity.
    + simpl. apply IH. lia.
Qed.

Lemma substring_exact s : forall n m,
  n + m <= String.length s -> String.length (String.substring n m s) = m.
Proof.
  induction s as [| c s IH]; intros n m H; simpl in H.
  - assert (n = 0) as -> by lia. assert (m = 0) as -> by lia. reflexivity.
  - destruct n as [| n]; [destruct m as [| m]; [reflexivity |] |]; simpl.
    + rewrite IH by lia. reflexivity.
    + apply IH. lia.
Qed.

(** The text is what stands before the selection, the selection and what
    stands after it. *)
Lemma selection_parts code selectionStart selectionEnd :
  selectionStart <= selectionEnd -> selectionEnd <= String.length code ->
  code = JS.substringTo code selectionStart
         +:+ substringBetween code selectionStart selectionEnd
         +:+ JS.substringFrom code selectionEnd.
Proof.
  intros H1 H2. unfold JS.substringTo, substringBetween, JS.substringFrom.
  replace selectionEnd with (selectionStart + (selectionEnd - selectionStart))
    at 2 by lia.
  rewrite <- substring_add by lia.
  rewrite <- (substring_add code 0) by lia.
  replace (selectionStart + (selectionEnd - selectionStart
                             + (String.length code - selectionEnd)))
    with (String.length code) by lia.
  symmetry. apply substring_whole.
Qed.

Lemma lineCount_split code : lineCount code = S (countChar JS.newline code).
Proof. unfold lineCount. rewrite split_length. reflexivity. Qed.

End Editor.

(** X19. The line numbers of the editor: the gutter counts one line more
    than the text has line breaks, so at least one; the fallback to 1 is
    never taken. *)
Theorem lineCount_breaks (code : string) :
  lineCount code = S (countChar JS.newline code) /\
  lineCount code = length (JS.split JS.newline code).
Proof.
  unfold lineCount. rewrite split_length. split; reflexivity.
Qed.

(** X20. The Tab key: with the selection from [selectionStart] to
    [selectionEnd] inside the text, the new text has two characters in
    place of the selection, it loses the line breaks of the selection and
    no other line, and the text before the new cursor position
    [selectionStart + 2] is the old text before the selection followed by
    two spaces. *)
Theorem tab_replaces_selection code selectionStart selectionEnd :
  selectionStart <= selectionEnd ->
  selectionEnd <= String.length code ->
  let newCode := insertTab code selectionStart selectionEnd in
  String.length newCode + (selectionEnd - selectionStart) = String.length code + 2 /\
  lineCount newCode
  + countChar JS.newline (substringBetween code selectionStart selectionEnd)
  = lineCount code /\
  JS.substringTo newCode (selectionStart + 2)
  = JS.substringTo code selectionStart +:+ "  " /\
  JS.substringFrom newCode (selectionStart + 2)
  = JS.substringFrom code selectionEnd.
Proof.
  intros H1 H2 newCode.
  pose proof (selection_parts code _ _ H1 H2) as Hparts.
  assert (La : String.length (JS.substringTo code selectionStart) = selectionStart)
    by (apply substring_exact; lia).
  assert (Lb : String.length (substringBetween code selectionStart selectionEnd)
               = selectionEnd - selectionStart)
    by (apply substring_exact; lia).
  assert (Lc : String.length (JS.substringFrom code selectionEnd)
               = String.length code - selectionEnd)
    by (apply substring_exact; lia).
  unfold newCode, insertTab.
  set (a := JS.substringTo code selectionStart) in *.
  set (b := substringBetween code selectionStart selectionEnd) in *.
  set (c := JS.substringFrom code selectionEnd) in *.
  assert (Lab : String.length (a +:+ "  ") = selectionStart + 2)
    by (rewrite length_app, La; reflexivity).
  split; [| split; [| split]].
  - rewrite !length_app, La, Lc. simpl. lia.
  - rewrite !lineCount_split. rewrite Hparts. rewrite !countChar_app. simpl. lia.
  - rewrite <- app_assoc_string, <- Lab. apply substring_app_left.
  - unfold JS.substringFrom at 1. rewrite <- app_assoc_string, <- Lab.
    rewrite <- (Nat.add_0_r (String.length (a +:+ "  "))) at 1.
    rewrite substring_app_right, length_app, Lab.
    replace (selectionStart + 2 + String.length c - (selectionStart + 2))
      with (String.length c) by lia.
    apply substring_whole.
Qed.

Lemma tab_replaces_selection_witness :
  let code := "if x:" +:+ lineBreak +:+ "y = 1" in
  let newCode := insertTab code 6 6 in
  String.length newCode + (6 - 6) = String.length code + 2 /\
  lineCount newCode + countChar JS.newline (substringBetween code 6 6)
  = lineCount code /\
  JS.substringTo newCode (6 + 2) = JS.substringTo code 6 +:+ "  " /\
  JS.substringFrom newCode (6 + 2) = JS.substringFrom code 6.
Proof.
  intros code.
  apply (tab_replaces_selection code 6 6); [lia | vm_compute; lia].
Defined.

(** ** The kinds of step *)

Section Shapes.

Variable recurse : string -> Scope -> option ExecutorResponse.

Hypothesis recurse_shape :
  forall code scope r,
    recurse code scope = Some r -> Forall (fun s => stepShape s = true) (trace r).

Local Abbreviation shaped := (fun s : ExecutionStep => stepShape s = true).

Lemma forEachStep_shape loopBody :
  forall steps tr scope,
    Forall shaped steps -> Forall shaped tr ->
    Forall shaped (outTrace (forEachStep loopBody steps tr scope)).
Proof.
  induction steps as [| step steps IH]; intros tr scope Hsteps Htr; simpl;
    [exact Htr |].
  inversion Hsteps as [| ? ? Hstep Hrest]; subst.
  destruct (lineNumber step) as [| n]; [exact Htr |].
  destruct (loopBody !! n) as [[line index] |]; [| exact Htr].
  apply IH; [exact Hrest |]. apply push_Forall; [exact Htr | exact Hstep].
Qed.

Lemma iterate_shape loopLimit loopVar lineNumber loopBody :
  forall fuel k tr scope o,
    Forall shaped tr ->
    iterate recurse fuel k loopLimit loopVar lineNumber loopBody tr scope = Some o ->
    Forall shaped (outTrace o).
Proof.
  induction fuel as [| fuel IH]; intros k tr scope o Htr; simpl.
  { destruct (JS.ltb k loopLimit); [discriminate |]. intros [= <-]. exact Htr. }
  destruct (JS.ltb k loopLimit); [| intros [= <-]; exact Htr].
  destruct (recurse _ _) as [sub |] eqn:Hsub; [| discriminate].
  apply recurse_shape in Hsub.
  match goal with
  | |- context [forEachStep ?b ?st ?t ?sc] =>
      assert (Hfe : Forall shaped (outTrace (forEachStep b st t sc)))
        by (apply forEachStep_shape; [exact Hsub |];
            apply push_Forall; [exact Htr | reflexivity]);
      destruct (forEachStep b st t sc) as [i' tr' scope' | r | m tr' scope']
  end.
  - simpl in Hfe.
    destruct (error sub) as [message |]; [destruct (negb _) |];
      try (apply IH; exact Hfe).
    intros [= <-]. exact Hfe.
  - intros [= <-]. exact Hfe.
  - intros [= <-]. exact Hfe.
Qed.

Lemma execLine_shape fuel lines i line tr scope o :
  Forall shaped tr ->
  execLine recurse fuel lines i line tr scope = Some o ->
  Forall shaped (outTrace o).
Proof.
  intros Htr. unfold execLine.
  destruct (_ || _); [intros [= <-]; exact Htr |].
  assert (Hlast : forall s, stepShape s = true -> Forall shaped (tr ++ [s])).
  { intros s Hs. apply Forall_app. split; [exact Htr |].
    constructor; [exact Hs | constructor]. }
  destruct (JS.exec inputPattern _) as [[| varName [| group [| ? ?]]] |].
  3: { destruct (negb (JS.isEmpty (JS.trim group)));
         [destruct (evaluateExpression _ _) as [scope1 [prompt | message]] |];
         intros [= <-]; simpl; unfold push; rewrite ?updateLast_snoc;
         apply Hlast; reflexivity. }
  all: destruct (JS.exec forLoopPattern _) as [[| loopVar [| loopLimitExpr [| ? ?]]] |].
  all: try match goal with
  | |- context [JS.exec assignmentPattern ?l] =>
      destruct (JS.exec assignmentPattern l) as [[| varName' [| valueExpr [| ? ?]]] |]
  end.
  all: try match goal with
  | |- context [JS.exec printPattern ?l] =>
      destruct (JS.exec printPattern l) as [[| group' [| ? ?]] |]
  end.
  all: try (intros [= <-]; apply Hlast; reflexivity).
  all: try (destruct (negb (JS.isEmpty _));
            [| intros [= <-]; apply Hlast; reflexivity]).
  all: try match goal with
  | |- context [evaluateExpression ?e ?sc] =>
      destruct (evaluateExpression e sc) as [scope1 [value | message]];
      [| intros [= <-]; apply Hlast; reflexivity]
  end.
  (* print and assignment *)
  all: try (intros [= <-]; simpl; unfold push; rewrite !updateLast_snoc;
            apply Hlast; reflexivity).
  (* the loop *)
  all: destruct value as [loopLimit | text];
    [| intros [= <-]; apply Hlast; reflexivity].
  all: destruct (collectBody _ _ _ _) as [loopBody j].
  all: match goal with
  | |- context [iterate ?rec ?f ?k ?lim ?v ?n ?b ?t ?sc] =>
      destruct (iterate rec f k lim v n b t sc) as [o' |] eqn:Hit;
      [| discriminate];
      apply iterate_shape in Hit;
      [| unfold push; rewrite updateLast_snoc; apply Hlast; reflexivity]
  end.
  all: destruct o'; intros [= <-]; exact Hit.
Qed.

Lemma run_shape lines :
  forall fuel i tr scope r,
    Forall shaped tr ->
    run recurse fuel lines i tr scope = Some r ->
    Forall shaped (trace r).
Proof.
  induction fuel as [| fuel IH]; intros i tr scope r Htr; simpl;
    destruct (lines !! i) as [line |] eqn:Hl.
  1: discriminate.
  1, 3: intros [= <-]; exact Htr.
  destruct (execLine recurse fuel lines i line tr scope) as [o |] eqn:Hex;
    [| discriminate].
  pose proof (execLine_shape _ _ _ _ _ _ _ Htr Hex) as Ho.
  destruct o as [i' tr' scope' | r' | message tr' scope']; simpl in Ho.
  - apply IH. exact Ho.
  - intros [= <-]. exact Ho.
  - intros [= <-]. unfold catch.
    pose proof (pop_Forall _ _ Ho) as Hpop.
    destruct (pop tr') as [lastStep rest]. simpl in *.
    apply push_Forall; [exact Hpop | reflexivity].
Qed.

End Shapes.

Lemma getExecutionTrace_shape :
  forall fuel code initialScope startLine providedInput r,
    getExecutionTrace fuel code initialScope startLine providedInput = Some r ->
    Forall (fun s => stepShape s = true) (trace r).
Proof.
  induction fuel as [| fuel IH]; intros code initialScope startLine providedInput r;
    simpl; [discriminate |].
  apply run_shape; [| constructor].
  intros code' scope' r' H. apply (IH _ _ _ _ _ H).
Qed.

(** X21. The kinds of step: every step of a returned trace is a request for
    input that names its variable and has neither an error nor an output, or
    an error step with neither an output nor an input variable, or a step
    with no flag and no input variable; and the description of a step that
    is no request for input is a text. *)
Theorem steps_have_a_kind fuel code initialScope startLine providedInput r :
  getExecutionTrace fuel code initialScope startLine providedInput = Some r ->
  Forall (fun s => stepShape s = true) (trace r).
Proof. apply getExecutionTrace_shape. Qed.

Lemma steps_have_a_kind_witness :
  exists r,
    getExecutionTrace 6 countProgram ∅ 0 None = Some r /\
    Forall (fun s => stepShape s = true) (trace r).
Proof.
  eexists. split; [vm_compute; reflexivity |].
  apply (steps_have_a_kind 6 countProgram ∅ 0 None).
  vm_compute. reflexivity.
Defined.
